(** * The chat widget of [client/src/App.tsx]

    A shallow embedding of the [ChatInterface] component: its React state
    cells, its event handlers ([handleSend], [handleFiles], [removeFile],
    [handleFileDrop], [handleDragOver]) and the transport
    [sendMessageToServer], followed by the properties of the
    specification that concern them.

    Conventions of the embedding.
    - A JavaScript string is its sequence of UTF-16 code units.
    - A [Message] object lives at a reference; [msg !== LOADING_MESSAGE]
      compares references, never contents.  Message objects are not
      mutated once they are in the list, so a cell of the list is the pair
      of the reference and the contents.
    - [handleSend] is an [async] function.  Its synchronous part runs up to
      the [fetch] inside [sendMessageToServer]; the rest runs when the
      fetch settles.  The two parts are [handleSend_in] and
      [handleSend_resume].
    - A handler closes over the state of the render that created it.  The
      world keeps the state ([ui]) and the state of the render that is on
      the page ([rendered]), whose handlers are the ones that run.  React
      renders the updates made in a user event before the next event, so
      such an update reaches both; the updates made after an [await] reach
      the state at once and the page at the next [Rerender], which can
      come at any time, and until then the page runs the handlers of the
      older render, brought forward by the user events handled since. *)

From Stdlib Require Import String Ascii DecimalString DecimalNat.
From Stdlib Require Import Bool ZArith NArith Lia List.
Import ListNotations.

Set Warnings "-register-all".
Local Open Scope list_scope.

(** ** JavaScript strings *)

Definition code_unit := N.
Definition jsstring := list code_unit.

(** An ASCII literal as a JavaScript string. *)
Definition js (s : string) : jsstring :=
  map N_of_ascii (list_ascii_of_string s).

Fixpoint jsstring_eqb (a b : jsstring) : bool :=
  match a, b with
  | [], [] => true
  | x :: a', y :: b' => N.eqb x y && jsstring_eqb a' b'
  | _, _ => false
  end.

(** WhiteSpace and LineTerminator code points of ECMAScript, the ones
    [String.prototype.trim] strips. *)
Definition is_white_space (c : code_unit) : bool :=
  existsb (N.eqb c)
    [9; 10; 11; 12; 13; 32; 160; 5760;
     8192; 8193; 8194; 8195; 8196; 8197; 8198; 8199; 8200; 8201; 8202;
     8232; 8233; 8239; 8287; 12288; 65279]%N.

Fixpoint trimStart (s : jsstring) : jsstring :=
  match s with
  | [] => []
  | c :: s' => if is_white_space c then trimStart s' else s
  end.

Definition trimEnd (s : jsstring) : jsstring := rev (trimStart (rev s)).

Definition trim (s : jsstring) : jsstring := trimEnd (trimStart s).

(** ToBoolean of a string: only the empty string is falsy. *)
Definition truthy (s : jsstring) : bool :=
  match s with [] => false | _ :: _ => true end.

(** The decimal rendering of an array index. *)
Definition decimal (n : nat) : jsstring :=
  js (NilEmpty.string_of_uint (Nat.to_uint n)).

(** ** JavaScript values, as [response.json()] produces them *)

(** A parsed number is kept as its string rendering, which is all a
    concatenation observes of it; arithmetic on values is left to
    [index_key], below. *)
Record Number := { Number_toString : jsstring }.

(** [VObj] lists the own properties of a plain object in the order
    [Object.keys] enumerates them. *)
Inductive JSValue :=
| VUndefined
| VNull
| VBool (b : bool)
| VNum (n : Number)
| VStr (s : jsstring)
| VArr (elems : list JSValue)
| VObj (props : list (jsstring * JSValue)).

Inductive Exn :=
| TypeError
| SyntaxError
| Error (message : jsstring).

(** A computation that returns or throws. *)
Definition Result (A : Type) : Type := (Exn + A)%type.

Definition ret {A} (a : A) : Result A := inr a.
Definition throw {A} (e : Exn) : Result A := inl e.
Definition bind {A B} (c : Result A) (k : A -> Result B) : Result B :=
  match c with
  | inl e => inl e
  | inr a => k a
  end.

Notation "x <- c ;; k" := (bind c (fun x => k))
  (at level 61, c at next level, right associativity).

Fixpoint lookup (k : jsstring) (props : list (jsstring * JSValue)) : option JSValue :=
  match props with
  | [] => None
  | (k', v) :: rest => if jsstring_eqb k' k then Some v else lookup k rest
  end.

(** The own property [k] of a value that is neither [undefined] nor [null]:
    the properties of an object, the indices and [length] of an array or of
    a string; a boolean or a number has none. *)
Definition own_property (v : JSValue) (k : jsstring) : option JSValue :=
  match v with
  | VObj props => lookup k props
  | VArr elems =>
      if jsstring_eqb k (js "length")
      then Some (VNum {| Number_toString := decimal (length elems) |})
      else
        match find (fun i => jsstring_eqb (decimal i) k) (seq 0 (length elems)) with
        | Some i => nth_error elems i
        | None => None
        end
  | VStr s =>
      if jsstring_eqb k (js "length")
      then Some (VNum {| Number_toString := decimal (length s) |})
      else
        match find (fun i => jsstring_eqb (decimal i) k) (seq 0 (length s)) with
        | Some i => option_map (fun c => VStr [c]) (nth_error s i)
        | None => None
        end
  | _ => None
  end.

(** [v.k] or [v[k]] for the keys this program reads ([messages], [files],
    the keys [Object.keys] returned): none of them is defined on a built-in
    prototype, so a key that is not an own property reads as [undefined].
    Reading a property of [undefined] or [null] throws. *)
Definition Get (v : JSValue) (k : jsstring) : Result JSValue :=
  match v with
  | VUndefined | VNull => throw TypeError
  | _ => ret (match own_property v k with Some x => x | None => VUndefined end)
  end.

(** [Object.keys(v)]: throws on [undefined] and [null], is empty on a
    boolean or a number, lists the indices of a string or an array. *)
Definition Object_keys (v : JSValue) : Result (list jsstring) :=
  match v with
  | VUndefined | VNull => throw TypeError
  | VBool _ | VNum _ => ret []
  | VStr s => ret (map decimal (seq 0 (length s)))
  | VArr elems => ret (map decimal (seq 0 (length elems)))
  | VObj props => ret (map fst props)
  end.

Fixpoint join (sep : jsstring) (parts : list jsstring) : jsstring :=
  match parts with
  | [] => []
  | [p] => p
  | p :: rest => p ++ sep ++ join sep rest
  end.

Definition sequence {A} (l : list (Result A)) : Result (list A) :=
  fold_right (fun c acc => x <- c ;; xs <- acc ;; ret (x :: xs)) (ret []) l.

(** ToString.  An array renders as its elements joined by commas, an
    [undefined] or [null] element as the empty string.  A plain object
    renders as [[object Object]], unless it has an own property [toString]:
    a parsed value is never callable, so the conversion finds no method that
    yields a primitive and throws. *)
Fixpoint ToString (v : JSValue) : Result jsstring :=
  match v with
  | VUndefined => ret (js "undefined")
  | VNull => ret (js "null")
  | VBool true => ret (js "true")
  | VBool false => ret (js "false")
  | VNum n => ret (Number_toString n)
  | VStr s => ret s
  | VArr elems =>
      parts <- sequence
                 (map (fun e => match e with
                                | VUndefined | VNull => ret []
                                | _ => ToString e
                                end) elems) ;;
      ret (join (js ",") parts)
  | VObj props =>
      match lookup (js "toString") props with
      | Some _ => throw TypeError
      | None => ret (js "[object Object]")
      end
  end.

(** [s + v] with a string on the left. *)
Definition string_plus (s : jsstring) (v : JSValue) : Result jsstring :=
  t <- ToString v ;; ret (s ++ t).

(** ** Files and messages *)

Record Blob := { blob_bytes : list Byte.byte; blob_type : jsstring }.

(** An element of a [FileList]. *)
Record File :=
  { file_name : jsstring; file_type : jsstring; file_bytes : list Byte.byte }.

(** [new Blob([file], { type })] *)
Definition new_Blob (file : File) (type : jsstring) : Blob :=
  {| blob_bytes := file_bytes file; blob_type := type |}.

Module FileInfo.
Record t := { name : jsstring; data : Blob; type : jsstring }.
End FileInfo.

Inductive Sender := user | agent.

(** The optional fields [files] and [images] are [None] when absent.  The
    interface types [text] as a string; the value taken from a response can
    be any parsed value, or [undefined]. *)
Module Message.
Record t :=
  { text : JSValue;
    sender : Sender;
    files : option (list FileInfo.t);
    images : option (list jsstring) }.
End Message.

Definition ref := nat.

(** A message object: where it lives and what it holds. *)
Definition MessageObj : Type := (ref * Message.t)%type.

Definition LOADING_MESSAGE : MessageObj :=
  (0, {| Message.text := VStr (js "Loading...");
         Message.sender := agent;
         Message.files := None;
         Message.images := None |}).

(** [msg !== LOADING_MESSAGE] *)
Definition not_LOADING_MESSAGE (msg : MessageObj) : bool :=
  negb (Nat.eqb (fst msg) (fst LOADING_MESSAGE)).

(** U+274C, then the rest of the literal. *)
Definition error_text : jsstring :=
  10060%N :: js " Error: Failed to send message. Please try again.".

(** ** The request and the response *)

(** The calls [formData.append(name, value)] and
    [formData.append(name, blob, filename)], in order. *)
Inductive FormDataEntry :=
| Field (name : jsstring) (value : JSValue)
| FileField (name : jsstring) (blob : Blob) (filename : jsstring).

Definition FormData := list FormDataEntry.

(** [json] is what [response.json()] settles to. *)
Record Response :=
  { status : N; statusText : jsstring; json : Result JSValue }.

(** [response.ok]: the status is in the range 200-299. *)
Definition ok (r : Response) : bool :=
  (200 <=? status r)%N && (status r <=? 299)%N.

(** What [fetch] settles to. *)
Inductive FetchResult :=
| Rejected (e : Exn)
| Resolved (r : Response).

(** ** The component state *)

Record State :=
  { messages : list MessageObj;
    input : jsstring;
    isDragging : bool;
    files : list FileInfo.t;
    isLoading : bool }.

Definition setMessages (f : list MessageObj -> list MessageObj) (s : State) : State :=
  {| messages := f (messages s); input := input s; isDragging := isDragging s;
     files := files s; isLoading := isLoading s |}.

Definition setInput (v : jsstring) (s : State) : State :=
  {| messages := messages s; input := v; isDragging := isDragging s;
     files := files s; isLoading := isLoading s |}.

Definition setIsDragging (v : bool) (s : State) : State :=
  {| messages := messages s; input := input s; isDragging := v;
     files := files s; isLoading := isLoading s |}.

Definition setFiles (f : list FileInfo.t -> list FileInfo.t) (s : State) : State :=
  {| messages := messages s; input := input s; isDragging := isDragging s;
     files := f (files s); isLoading := isLoading s |}.

Definition setIsLoading (v : bool) (s : State) : State :=
  {| messages := messages s; input := input s; isDragging := isDragging s;
     files := files s; isLoading := v |}.

(** The component with what surrounds it: the state, with every update
    applied; the state of the render that is on the page; the allocator of
    message objects; the requests whose fetch has not settled (each one
    suspends a call of [handleSend]); the lines of [console.error]. *)
Record World :=
  { ui : State;
    rendered : State;
    next_ref : ref;
    inflight : list FormData;
    console : list Exn }.

(** An update made in a user event: it reaches the state, and the page
    before the next event. *)
Definition with_ui (f : State -> State) (w : World) : World :=
  {| ui := f (ui w); rendered := f (rendered w); next_ref := next_ref w;
     inflight := inflight w; console := console w |}.

(** An update made after an [await]: it reaches the state, and the page
    only when the page renders again. *)
Definition with_state (f : State -> State) (w : World) : World :=
  {| ui := f (ui w); rendered := rendered w; next_ref := next_ref w;
     inflight := inflight w; console := console w |}.

Definition initial_state : State :=
  {| messages := []; input := []; isDragging := false;
     files := []; isLoading := false |}.

Definition init : World :=
  {| ui := initial_state; rendered := initial_state;
     next_ref := 1; inflight := []; console := [] |}.

(** ** The composer: files *)

Definition handleFiles (newFiles : list File) (s : State) : State :=
  let fileList :=
    map (fun file =>
           {| FileInfo.name := file_name file;
              FileInfo.data := new_Blob file (file_type file);
              FileInfo.type := file_type file |}) newFiles in
  setFiles (fun prevFiles => prevFiles ++ fileList) s.

(** [array.filter((x, i) => f(x, i))], [i] counted from [start]. *)
Fixpoint filter_from {A} (f : A -> nat -> bool) (start : nat) (l : list A) : list A :=
  match l with
  | [] => []
  | x :: l' =>
      if f x start then x :: filter_from f (S start) l'
      else filter_from f (S start) l'
  end.

Definition filter_index {A} (f : A -> nat -> bool) (l : list A) : list A :=
  filter_from f 0 l.

(** The index is any integer; the rendered buttons pass the positions of
    the list. *)
Definition removeFile (index : Z) (s : State) : State :=
  setFiles (filter_index (fun _ i => negb (Z.of_nat i =? index)%Z)) s.

Definition handleFileDrop (dataTransfer_files : list File) (s : State) : State :=
  handleFiles dataTransfer_files (setIsDragging false s).

Definition handleDragOver (s : State) : State := setIsDragging true s.

(** ** The transport and the send cycle *)

(** A reading of [index_key] (see below) for running the component on
    examples.  It is the engine's result when the length is absent, [null],
    a boolean, an empty array or a plain object; a number, a string or a
    non-empty array as length needs the double arithmetic this development
    leaves out, and reads as [NaN] here. *)
Definition plain_index_key (len : JSValue) : Result jsstring :=
  match len with
  | VNull | VBool false | VArr [] => ret (js "-1")
  | VBool true => ret (js "0")
  | VObj props =>
      match lookup (js "toString") props with
      | Some _ => throw TypeError
      | None => ret (js "NaN")
      end
  | _ => ret (js "NaN")
  end.

Section Component.

(** [ToPropertyKey(ToNumber(len) - 1)]: the conversion of an arbitrary
    value to a double, the subtraction and the rendering of the result.
    It is reached only when [messages] is a plain object, whose [length]
    can be any value; the properties below hold whatever it returns. *)
Variable index_key : JSValue -> Result jsstring.

(** [m[m.length - 1]].  The [length] of an array or a string is its
    number of elements, and the index -1 of an empty one names no
    property; a boolean or a number has no [length], and no property
    [NaN]. *)
Definition last_element (m : JSValue) : Result JSValue :=
  match m with
  | VUndefined | VNull => throw TypeError
  | VArr elems =>
      ret (match length elems with
           | 0 => VUndefined
           | S n => nth n elems VUndefined
           end)
  | VStr s =>
      ret (match length s with
           | 0 => VUndefined
           | S n => match nth_error s n with
                    | Some c => VStr [c]
                    | None => VUndefined
                    end
           end)
  | VBool _ | VNum _ => ret VUndefined
  | VObj props =>
      k <- index_key (match lookup (js "length") props with
                      | Some len => len
                      | None => VUndefined
                      end) ;;
      Get m k
  end.

(** [sendMessageToServer] up to its [fetch]: the body of the request. *)
Definition sendMessageToServer_request (message : Message.t) : FormData :=
  Field (js "input") (Message.text message)
  :: match Message.files message with
     | Some fs =>
         map (fun file =>
                FileField (js "files") (FileInfo.data file) (FileInfo.name file))
             fs
     | None => []
     end.

(** [sendMessageToServer] from the point its [fetch] settles.
    [receivedMessage] is allocated at [fresh]. *)
Definition sendMessageToServer_resume (fresh : ref) (settled : FetchResult)
  : Result (list MessageObj) :=
  match settled with
  | Rejected e => throw e
  | Resolved response =>
      if negb (ok response)
      then throw (Error (js "Server error: " ++ statusText response))
      else
        responseData <- json response ;;
        responseData_messages <- Get responseData (js "messages") ;;
        text <- last_element responseData_messages ;;
        responseData_files <- Get responseData (js "files") ;;
        keys <- Object_keys responseData_files ;;
        images <- sequence
                    (map (fun x =>
                            v <- Get responseData_files x ;;
                            string_plus (js "data:image/png;base64,") v)
                         keys) ;;
        ret [(fresh,
              {| Message.text := text;
                 Message.sender := agent;
                 Message.files := Some [];
                 Message.images := Some images |})]
  end.

(** The state updates of [handleSend] up to its [await], as created by the
    render [render], [newMessage] being allocated at [fresh].  The first
    [setMessages] is given a list, made of the [messages] of [render]; the
    second is given a function of the list it finds. *)
Definition handleSend_updates (render : State) (fresh : ref) (s : State) : State :=
  let newMessage : MessageObj :=
    (fresh,
     {| Message.text := VStr (input render);
        Message.sender := user;
        Message.files := Some (files render);
        Message.images := None |}) in
  let s := setMessages (fun _ => messages render ++ [newMessage]) s in
  let s := setInput [] s in
  let s := setFiles (fun _ => []) s in
  let s := setIsLoading true s in
  setMessages (fun prev => prev ++ [LOADING_MESSAGE]) s.

(** [handleSend] up to its [await], as created by the render [render]. *)
Definition handleSend_in (render : State) (w : World) : World :=
  if negb (truthy (trim (input render))) && (length (files render) =? 0)
  then w
  else
    {| ui := handleSend_updates render (next_ref w) (ui w);
       rendered := handleSend_updates render (next_ref w) (rendered w);
       next_ref := S (next_ref w);
       inflight := inflight w
                   ++ [sendMessageToServer_request
                         {| Message.text := VStr (input render);
                            Message.sender := user;
                            Message.files := Some (files render);
                            Message.images := None |}];
       console := console w |}.

(** The [handleSend] that the page runs: the one of the render on it. *)
Definition handleSend (w : World) : World := handleSend_in (rendered w) w.

(** [handleSend] from its [await] on: the [try], the [catch] and the
    [finally].  The second component is what the promise of [handleSend]
    settles to. *)
Definition handleSend_resume (settled : FetchResult) (w : World)
  : World * Result unit :=
  let w1 :=
    match sendMessageToServer_resume (next_ref w) settled with
    | inr answers =>
        with_state (setMessages
                      (fun prev => filter not_LOADING_MESSAGE prev ++ answers)) w
    | inl error =>
        {| ui := setMessages
                   (fun prev =>
                      filter not_LOADING_MESSAGE prev
                      ++ [(S (next_ref w),
                           {| Message.text := VStr error_text;
                              Message.sender := agent;
                              Message.files := None;
                              Message.images := None |})])
                   (ui w);
           rendered := rendered w;
           next_ref := next_ref w;
           inflight := inflight w;
           console := console w ++ [error] |}
    end in
  ({| ui := setIsLoading false (ui w1);
      rendered := rendered w1;
      next_ref := S (S (next_ref w));
      inflight := inflight w1;
      console := console w1 |},
   ret tt).

(** ** Events *)

Inductive Event :=
| Change (value : jsstring)          (* typing in the text input *)
| KeyPress (key : jsstring)          (* a key in the text input *)
| ClickSend                          (* the send button *)
| SelectFiles (fl : list File)       (* the hidden file input *)
| Drop (fl : list File)
| DragOver
| DragLeave
| ClickRemove (index : nat)          (* the button of an attached file *)
| Settle (k : nat) (settled : FetchResult)   (* the k-th pending fetch *)
| Rerender.                          (* the page renders the state *)

Definition remove_nth {A} (k : nat) (l : list A) : list A :=
  firstn k l ++ skipn (S k) l.

(** The k-th pending fetch leaves the pending ones as it settles. *)
Definition settle_pending (k : nat) (w : World) : World :=
  {| ui := ui w; rendered := rendered w; next_ref := next_ref w;
     inflight := remove_nth k (inflight w);
     console := console w |}.

(** One event.  A user event runs the handler of the render on the page.
    [None] when the page cannot deliver it: the send button is disabled
    when rendered with [isLoading], a remove button is rendered for each
    attached file only, and only a pending fetch settles. *)
Definition step (w : World) (e : Event) : option World :=
  match e with
  | Change value => Some (with_ui (setInput value) w)
  | KeyPress key =>
      if jsstring_eqb key (js "Enter") then Some (handleSend w) else Some w
  | ClickSend => if isLoading (rendered w) then None else Some (handleSend w)
  | SelectFiles fl => Some (with_ui (handleFiles fl) w)
  | Drop fl => Some (with_ui (handleFileDrop fl) w)
  | DragOver => Some (with_ui handleDragOver w)
  | DragLeave => Some (with_ui (setIsDragging false) w)
  | ClickRemove index =>
      if index <? length (files (rendered w))
      then Some (with_ui (removeFile (Z.of_nat index)) w)
      else None
  | Settle k settled =>
      match nth_error (inflight w) k with
      | None => None
      | Some _ =>
          Some (fst (handleSend_resume settled (settle_pending k w)))
      end
  | Rerender =>
      Some {| ui := ui w; rendered := ui w; next_ref := next_ref w;
              inflight := inflight w; console := console w |}
  end.

Fixpoint run (w : World) (es : list Event) : option World :=
  match es with
  | [] => Some w
  | e :: es' =>
      match step w e with
      | Some w' => run w' es'
      | None => None
      end
  end.

(** The loading placeholders of a message list. *)
Definition placeholders (l : list MessageObj) : nat :=
  length (filter (fun msg => negb (not_LOADING_MESSAGE msg)) l).

End Component.

(** * The vocabulary of the properties *)

(** The [FileInfo] that [handleFiles] makes of a selected or dropped file. *)
Definition FileInfo_of (file : File) : FileInfo.t :=
  {| FileInfo.name := file_name file;
     FileInfo.data := {| blob_bytes := file_bytes file; blob_type := file_type file |};
     FileInfo.type := file_type file |}.

(** The user message [handleSend] makes of the composer. *)
Definition user_message (s : State) : Message.t :=
  {| Message.text := VStr (input s);
     Message.sender := user;
     Message.files := Some (files s);
     Message.images := None |}.

(** The render [render] shows the composer of [w] as it is: the text and
    the attached files it closes over are those of the state. *)
Definition shows_composer_of (render : State) (w : World) : Prop :=
  input render = input (ui w) /\ files render = files (ui w).

(** The message of the [catch] branch. *)
Definition error_message : Message.t :=
  {| Message.text := VStr error_text;
     Message.sender := agent;
     Message.files := None;
     Message.images := None |}.

(** The failures of the transport: [fetch] rejects (the network), the
    status is not in the 2xx range, or [response.json()] rejects (the body
    is not JSON). *)
Definition transport_failure (settled : FetchResult) : Prop :=
  match settled with
  | Rejected _ => True
  | Resolved response => ok response = false \/ exists e, json response = inl e
  end.

(** [without_sentinel l l']: [l'] is [l] with the cells that are the
    sentinel object left out, and every other cell kept, in order. *)
Inductive without_sentinel : list MessageObj -> list MessageObj -> Prop :=
| ws_nil : without_sentinel [] []
| ws_sentinel msg l l' :
    fst msg = fst LOADING_MESSAGE ->
    without_sentinel l l' -> without_sentinel (msg :: l) l'
| ws_other msg l l' :
    fst msg <> fst LOADING_MESSAGE ->
    without_sentinel l l' -> without_sentinel (msg :: l) (msg :: l').

(** Sends that go through the button: every event but the Enter key. *)
Definition by_button (e : Event) : bool :=
  match e with
  | KeyPress key => negb (jsstring_eqb key (js "Enter"))
  | _ => true
  end.

(** At most one call of [handleSend] is suspended, and the placeholder is
    there only while it is; a page rendered without [isLoading] shows the
    list as it is, and nothing is pending. *)
Definition single_flight (w : World) : Prop :=
  1 <= next_ref w
  /\ (if isLoading (ui w)
      then placeholders (messages (ui w)) <= 1 /\ length (inflight w) = 1
      else placeholders (messages (ui w)) = 0 /\ inflight w = [])
  /\ (isLoading (rendered w) = false ->
      messages (rendered w) = messages (ui w) /\ isLoading (ui w) = false).

(** A [files] mapping whose values are strings, as a parsed object. *)
Definition files_object (f : list (jsstring * jsstring)) : JSValue :=
  VObj (map (fun kv => (fst kv, VStr (snd kv))) f).

Definition data_uri (base64 : jsstring) : jsstring :=
  js "data:image/png;base64," ++ base64.

(** The agent message the transport makes of a reply text and of the
    values of a [files] mapping. *)
Definition reply (text : JSValue) (f : list (jsstring * jsstring)) : Message.t :=
  {| Message.text := text;
     Message.sender := agent;
     Message.files := Some [];
     Message.images := Some (map (fun kv => data_uri (snd kv)) f) |}.

(** ** Sample data *)

Definition a_file : File :=
  {| file_name := js "plot.csv"; file_type := js "text/csv"; file_bytes := [] |}.

Definition b_file : File :=
  {| file_name := js "notes.txt"; file_type := js "text/plain"; file_bytes := [] |}.

Definition ok_response (body : JSValue) : FetchResult :=
  Resolved {| status := 200; statusText := js "OK"; json := inr body |}.

(** The world a list of events leads to from the initial one. *)
Definition world_after (es : list Event) : World :=
  match run plain_index_key init es with
  | Some w => w
  | None => init
  end.

(** One message sent, its fetch pending. *)
Definition w_sent : World :=
  world_after [Change (js "hi"); ClickSend].

Definition body_a_b : JSValue :=
  VObj [(js "messages", VArr [VStr (js "a"); VStr (js "b")]);
        (js "files", VObj [(js "x", VStr (js "iVBORw0KGgo="))])].

Definition body_without_files : JSValue :=
  VObj [(js "messages", VArr [VStr (js "a")])].

Definition body_files_true : JSValue :=
  VObj [(js "messages", VArr [VStr (js "a")]); (js "files", VBool true)].

Definition body_no_messages : JSValue :=
  VObj [(js "messages", VArr []);
        (js "files", VObj [(js "x", VStr (js "iVBORw0KGgo="))])].

(** The server once answered with the text of the placeholder; a second
    message is being sent. *)
Definition w_lookalike : World :=
  world_after
    [Change (js "hi"); ClickSend;
     Settle 0 (ok_response (VObj [(js "messages", VArr [VStr (js "Loading...")]);
                                  (js "files", VObj [])]));
     Rerender; Change (js "again"); ClickSend].

Definition body_to_a : JSValue :=
  VObj [(js "messages", VArr [VStr (js "to a")]); (js "files", VObj [])].

Definition body_to_b : JSValue :=
  VObj [(js "messages", VArr [VStr (js "to b")]); (js "files", VObj [])].

(** A message is sent, the next one is typed, and the reply to the first
    arrives: the state has it, the page has not rendered it yet. *)
Definition reply_before_render : list Event :=
  [Change (js "a"); KeyPress (js "Enter"); Change (js "b");
   Settle 0 (ok_response body_to_a)].

Definition texts (w : World) : list JSValue :=
  map (fun msg => Message.text (snd msg)) (messages (ui w)).

(** Two messages sent with the Enter key, the second while the first is
    pending. *)
Definition enter_twice : list Event :=
  [Change (js "a"); KeyPress (js "Enter"); Change (js "b"); KeyPress (js "Enter")].


(** ** The rendered tree *)

(** The tree of React elements the component returns: the JSX of
    [MessageContent] and of [ChatInterface], attribute by attribute.  A
    child in braces that is not an element is an [Expr]; the result of a
    [.map] is an [Array].  [MessageContent] is expanded where it is used. *)

(** What the handlers read of the event they receive: [e.key],
    [e.target.value], [e.target.files] ([None] for [null]) and
    [e.dataTransfer.files]. *)
Record DomEvent :=
  { e_key : jsstring;
    e_target_value : jsstring;
    e_target_files : option (list File);
    e_dataTransfer_files : list File }.

(** An event handler, as the change it makes to the world up to the first
    [await]; [e.preventDefault()] changes nothing of it. *)
Definition Handler : Type := DomEvent -> World -> World.

Inductive AttrValue :=
| AString (s : jsstring)
| ANumber (n : nat)
| ABoolean (b : bool)
| AHandler (h : Handler)
| ARef.                                (* [fileInputRef] *)

Inductive Node :=
| Element (type : jsstring) (attrs : list (jsstring * AttrValue)) (children : list Node)
| Expr (v : JSValue)
| Array (items : list Node).

(** [array.map((x, i) => f(x, i))], [i] counted from [start]. *)
Fixpoint map_from {A B} (f : A -> nat -> B) (start : nat) (l : list A) : list B :=
  match l with
  | [] => []
  | x :: l' => f x start :: map_from f (S start) l'
  end.

Definition map_index {A B} (f : A -> nat -> B) (l : list A) : list B :=
  map_from f 0 l.

Definition className (s : jsstring) : jsstring * AttrValue :=
  (js "className", AString s).

Definition key (index : nat) : jsstring * AttrValue :=
  (js "key", ANumber index).

Definition MessageContent (message : Message.t) : Node :=
  Element (js "div")
    [className (js "inline-block p-3 rounded-lg "
                ++ match Message.sender message with
                   | user => js "bg-blue-500 text-white"
                   | agent => js "bg-gray-200 text-gray-800"
                   end)]
    [Element (js "div") [] [Expr (Message.text message)];
     match Message.images message with
     | Some images =>
         Element (js "div") [className (js "mt-2")]
           [Array (map_index
                     (fun img i =>
                        Element (js "img")
                          [key i;
                           (js "src", AString img);
                           (js "alt", AString (js "Response image"));
                           className (js "max-w-full rounded mt-2")]
                          [])
                     images)]
     | None => Expr VUndefined
     end;
     match Message.files message with
     | Some files =>
         Element (js "div") [className (js "text-sm mt-2")]
           [Array (map_index
                     (fun file i =>
                        Element (js "div") [key i; className (js "text-xs")]
                          [Expr (VStr (FileInfo.name file))])
                     files)]
     | None => Expr VUndefined
     end].

(** The row of an attached file, with its remove button. *)
Definition attached_file_row (file : FileInfo.t) (index : nat) : Node :=
  Element (js "div")
    [key index; className (js "flex items-center justify-between text-xs")]
    [Expr (VStr (FileInfo.name file));
     Element (js "button")
       [(js "onClick", AHandler (fun _ => with_ui (removeFile (Z.of_nat index))));
        className (js "text-red-500 ml-2")]
       [Element (js "X") [(js "size", ANumber 14)] []]].

(** What [ChatInterface] returns in the state [s]; [handleSend] is the one
    this render creates. *)
Definition render (s : State) : Node :=
  Element (js "div") [className (js "flex flex-col h-screen max-w-2xl mx-auto p-4")]
    [Element (js "div")
       [className (js "flex-1 overflow-y-auto mb-4 p-4 border rounded-lg "
                   ++ if isDragging s then js "border-blue-500 bg-blue-50"
                      else js "border-gray-200");
        (js "onDrop",
         AHandler (fun e => with_ui (handleFileDrop (e_dataTransfer_files e))));
        (js "onDragOver", AHandler (fun _ => with_ui handleDragOver));
        (js "onDragLeave", AHandler (fun _ => with_ui (setIsDragging false)))]
       [Array (map_index
                 (fun (message : MessageObj) index =>
                    Element (js "div")
                      [key index;
                       className (js "mb-4 "
                                  ++ match Message.sender (snd message) with
                                     | user => js "text-right"
                                     | agent => js "text-left"
                                     end)]
                      [MessageContent (snd message)])
                 (messages s))];
     Element (js "div") [className (js "flex gap-2")]
       [Element (js "input")
          [(js "type", AString (js "file"));
           (js "ref", ARef);
           className (js "hidden");
           (js "onChange",
            AHandler (fun e w =>
                        match e_target_files e with
                        | Some fl => with_ui (handleFiles fl) w
                        | None => w
                        end));
           (js "multiple", ABoolean true)]
          [];
        Element (js "button")
          [className (js "p-2 hover:bg-gray-100 rounded");
           (js "onClick", AHandler (fun _ w => w))]
          [Element (js "Paperclip") [(js "size", ANumber 20)] []];
        Element (js "input")
          [(js "type", AString (js "text"));
           (js "value", AString (input s));
           (js "onChange", AHandler (fun e => with_ui (setInput (e_target_value e))));
           (js "onKeyPress",
            AHandler (fun e w =>
                        if jsstring_eqb (e_key e) (js "Enter")
                        then handleSend_in s w
                        else w));
           (js "placeholder", AString (js "Type a message..."));
           className (js "flex-1 p-2 border rounded")]
          [];
        Element (js "button")
          [(js "onClick", AHandler (fun _ => handleSend_in s));
           (js "disabled", ABoolean (isLoading s));
           className (js "p-2 bg-blue-500 text-white rounded hover:bg-blue-600")]
          [Element (js "Send") [(js "size", ANumber 20)] []]];
     if 0 <? length (files s)
     then
       Element (js "div") [className (js "mt-2 p-2 border rounded-lg bg-gray-100 text-sm")]
         [Element (js "strong") [] [Expr (VStr (js "Attached files:"))];
          Array (map_index attached_file_row (files s))]
     else Expr (VBool false)].

(** ** Reading the rendered tree *)

(** An element with [disabled] true delivers no event. *)
Definition is_disabled (attrs : list (jsstring * AttrValue)) : bool :=
  existsb (fun a => match a with
                    | (k, ABoolean true) => jsstring_eqb k (js "disabled")
                    | _ => false
                    end) attrs.

Definition handlers_of (attrs : list (jsstring * AttrValue)) : list Handler :=
  flat_map (fun a => match snd a with AHandler h => [h] | _ => [] end) attrs.

(** The handlers an event can reach, in document order. *)
Fixpoint live_handlers (n : Node) : list Handler :=
  match n with
  | Element _ attrs children =>
      if is_disabled attrs then []
      else handlers_of attrs ++ flat_map live_handlers children
  | Expr _ => []
  | Array items => flat_map live_handlers items
  end.

(** The [src] of the images, in document order. *)
Fixpoint image_sources (n : Node) : list jsstring :=
  match n with
  | Element type attrs children =>
      (if jsstring_eqb type (js "img")
       then flat_map (fun a => match a with
                               | (k, AString v) =>
                                   if jsstring_eqb k (js "src") then [v] else []
                               | _ => []
                               end) attrs
       else [])
      ++ flat_map image_sources children
  | Expr _ => []
  | Array items => flat_map image_sources items
  end.

(** What a tree shows, in document order: a text or an image. *)
Inductive Shown :=
| ShownText (text : jsstring)
| ShownImage (src : jsstring).

(** The text React makes of a child value: a string or a number is text,
    [undefined], [null] and the booleans are left out, an array stands for
    its items.  A plain object is no valid child (see [valid_child]). *)
Fixpoint text_of (v : JSValue) : list jsstring :=
  match v with
  | VStr s => [s]
  | VNum n => [Number_toString n]
  | VArr items => flat_map text_of items
  | _ => []
  end.

(** The text of a tree, in document order. *)
Fixpoint displayed (n : Node) : list jsstring :=
  match n with
  | Element _ _ children => flat_map displayed children
  | Expr v => text_of v
  | Array items => flat_map displayed items
  end.

(** The texts and the images of a tree, in document order. *)
Fixpoint shown (n : Node) : list Shown :=
  match n with
  | Element type attrs children =>
      (if jsstring_eqb type (js "img")
       then flat_map (fun a => match a with
                               | (k, AString v) =>
                                   if jsstring_eqb k (js "src")
                                   then [ShownImage v] else []
                               | _ => []
                               end) attrs
       else [])
      ++ flat_map shown children
  | Expr v => map ShownText (text_of v)
  | Array items => flat_map shown items
  end.

(** React throws on a child that is a plain object ("Objects are not valid
    as a React child"), inside an array as well. *)
Fixpoint valid_child (v : JSValue) : bool :=
  match v with
  | VObj _ => false
  | VArr items => forallb valid_child items
  | _ => true
  end.

(** The tree has only valid children: rendering it does not throw. *)
Fixpoint renderable (n : Node) : bool :=
  match n with
  | Element _ _ children => forallb renderable children
  | Expr v => valid_child v
  | Array items => forallb renderable items
  end.

(** The events a person causes: all but the settling of a fetch and the
    rendering of the page. *)
Definition from_the_page (e : Event) : bool :=
  match e with
  | Settle _ _ | Rerender => false
  | _ => true
  end.

(** The images and the text a message is to show. *)
Definition images_of (msg : MessageObj) : list jsstring :=
  match Message.images (snd msg) with
  | Some images => images
  | None => []
  end.

Definition text_and_names_of (msg : MessageObj) : list jsstring :=
  text_of (Message.text (snd msg))
  ++ match Message.files (snd msg) with
     | Some files => map FileInfo.name files
     | None => []
     end.

(** Every text of the list is a valid child. *)
Definition valid_texts (l : list MessageObj) : bool :=
  forallb (fun msg => valid_child (Message.text (snd msg))) l.

(** A fetch settles on something the page can show: whatever message the
    transport makes of it has a text that is a valid child. *)
Definition shows_well (index_key : JSValue -> Result jsstring) (e : Event) : Prop :=
  match e with
  | Settle _ settled =>
      forall fresh r m,
        sendMessageToServer_resume index_key fresh settled = inr [(r, m)] ->
        valid_child (Message.text m) = true
  | _ => True
  end.


(** The drag highlight a sequence of events leaves: the last of the drag
    events decides, and no other event counts. *)
Definition highlight_after (before : bool) (es : list Event) : bool :=
  fold_left (fun b e => match e with
                        | DragOver => true
                        | DragLeave | Drop _ => false
                        | _ => b
                        end) es before.

(** ** The conversation and the send cycle *)

(** The messages proper: the list without the placeholder. *)
Definition conversation (w : World) : list MessageObj :=
  filter not_LOADING_MESSAGE (messages (ui w)).

Definition sent_by (who : Sender) (msg : MessageObj) : bool :=
  match Message.sender (snd msg), who with
  | user, user | agent, agent => true
  | _, _ => false
  end.

Definition count_by (who : Sender) (l : list MessageObj) : nat :=
  length (filter (sent_by who) l).

(** The events whose handler calls [handleSend]. *)
Definition calls_handleSend (e : Event) : bool :=
  match e with
  | ClickSend => true
  | KeyPress key => jsstring_eqb key (js "Enter")
  | _ => false
  end.

(** What every sequence of events keeps: message objects are allocated
    after the sentinel; the busy flag is set only with a request pending and
    a placeholder in the list, and no placeholder is in the list when it is
    not set. *)
Definition send_cycle_invariant (w : World) : Prop :=
  1 <= next_ref w
  /\ (isLoading (ui w) = true ->
      inflight w <> [] /\ 1 <= placeholders (messages (ui w)))
  /\ (isLoading (ui w) = false -> placeholders (messages (ui w)) = 0).

(** Along the events [es] from [w], every [handleSend] is the one of a
    render that shows the list as it is: no send is handled between the
    settling of a fetch and the render that follows it. *)
Fixpoint sends_see_the_list (index_key : JSValue -> Result jsstring)
         (w : World) (es : list Event) : Prop :=
  match es with
  | [] => True
  | e :: es' =>
      (calls_handleSend e = true -> messages (rendered w) = messages (ui w))
      /\ match step index_key w e with
         | Some w' => sends_see_the_list index_key w' es'
         | None => True
         end
  end.

(** The user messages are as many as the agent messages and the pending
    requests together. *)
Definition answered_or_pending (w : World) : Prop :=
  count_by user (conversation w)
  = count_by agent (conversation w) + length (inflight w).

(** ** Further sample data *)

(** Two requests pending, after [enter_twice]. *)
Definition w_two_pending : World := world_after enter_twice.

(** The first of the two has failed, the second is still pending. *)
Definition w_one_settled : World :=
  world_after (enter_twice ++ [Settle 0 (Rejected TypeError)]).

Definition two_files : State := handleFiles [a_file; b_file] (ui init).

(** A message sent and answered, the page rendered, a second message sent
    and its request failed. *)
Definition answered_twice : list Event :=
  [Change (js "hi"); ClickSend; Settle 0 (ok_response body_a_b); Rerender;
   Change (js "b"); KeyPress (js "Enter"); Settle 0 (Rejected TypeError)].

Definition w_answered_twice : World := world_after answered_twice.

Definition body_string_messages : JSValue :=
  VObj [(js "messages", VStr (js "done")); (js "files", VObj [])].


Definition body_files_array : JSValue :=
  VObj [(js "messages", VArr [VStr (js "a")]);
        (js "files", VArr [VStr (js "iVBORw0KGgo="); VStr (js "R0lGODlh")])].

(** * Properties *)

(** ** Strings *)

Lemma jsstring_eqb_eq (a b : jsstring) : jsstring_eqb a b = true <-> a = b.
Proof.
  revert b; induction a as [|x a IH]; intros [|y b]; simpl;
    try (split; [discriminate | congruence]); try tauto.
  rewrite andb_true_iff, N.eqb_eq, IH.
  split; [intros [-> ->]; reflexivity | intros E; injection E; auto].
Qed.

Lemma jsstring_eqb_refl (a : jsstring) : jsstring_eqb a a = true.
Proof. apply jsstring_eqb_eq; reflexivity. Qed.

Lemma jsstring_eqb_neq (a b : jsstring) : a <> b -> jsstring_eqb a b = false.
Proof.
  intros H; destruct (jsstring_eqb a b) eqn:E; [|reflexivity].
  apply jsstring_eqb_eq in E; contradiction.
Qed.

Lemma trimStart_nil_iff (s : jsstring) :
  trimStart s = [] <-> forallb is_white_space s = true.
Proof.
  induction s as [|c s IH]; simpl; [tauto|].
  destruct (is_white_space c); simpl; [exact IH|].
  split; discriminate.
Qed.

(** [trim] leaves nothing exactly of the strings made of white space. *)
Lemma trim_nil_iff (s : jsstring) :
  trim s = [] <-> forallb is_white_space s = true.
Proof.
  unfold trim, trimEnd; split.
  - intros H.
    assert (R : trimStart (rev (trimStart s)) = []).
    { rewrite <- (rev_involutive (trimStart (rev (trimStart s)))), H; reflexivity. }
    apply trimStart_nil_iff in R.
    apply trimStart_nil_iff.
    destruct (trimStart s) as [|c t] eqn:E; [reflexivity|exfalso].
    assert (W : is_white_space c = false).
    { clear R; induction s as [|d s IH]; simpl in E; [discriminate|].
      destruct (is_white_space d) eqn:D; [auto|].
      injection E as -> _; exact D. }
    rewrite forallb_forall in R.
    rewrite (R c) in W; [discriminate|].
    apply in_rev; rewrite rev_involutive; left; reflexivity.
  - intros H; apply trimStart_nil_iff in H; rewrite H; reflexivity.
Qed.

Lemma send_guard_iff (s : State) :
  negb (truthy (trim (input s))) && (length (files s) =? 0) = true
  <-> forallb is_white_space (input s) = true /\ files s = [].
Proof.
  rewrite andb_true_iff, Nat.eqb_eq, length_zero_iff_nil, <- trim_nil_iff.
  destruct (trim (input s)); simpl; intuition congruence.
Qed.

(** ** Lists *)

Lemma filter_from_below {A} (l : list A) (index : Z) (start : nat) :
  (index < Z.of_nat start)%Z ->
  filter_from (fun _ i => negb (Z.of_nat i =? index)%Z) start l = l.
Proof.
  revert start; induction l as [|x l IH]; intros start H; simpl; [reflexivity|].
  destruct (Z.eqb_spec (Z.of_nat start) index); [lia|]; simpl.
  rewrite IH by lia; reflexivity.
Qed.

Lemma filter_from_above {A} (l : list A) (index : Z) (start : nat) :
  (Z.of_nat (start + length l) <= index)%Z ->
  filter_from (fun _ i => negb (Z.of_nat i =? index)%Z) start l = l.
Proof.
  revert start; induction l as [|x l IH]; intros start H; simpl in *; [reflexivity|].
  destruct (Z.eqb_spec (Z.of_nat start) index); [lia|]; simpl.
  rewrite IH by lia; reflexivity.
Qed.

Lemma filter_from_at {A} (l : list A) (k start : nat) :
  k < length l ->
  filter_from (fun _ i => negb (Z.of_nat i =? Z.of_nat (start + k))%Z) start l
  = firstn k l ++ skipn (S k) l.
Proof.
  revert k start; induction l as [|x l IH]; intros k start H; simpl in H; [lia|].
  destruct k as [|k]; simpl.
  - rewrite Nat.add_0_r, Z.eqb_refl; simpl.
    apply filter_from_below; lia.
  - destruct (Z.eqb_spec (Z.of_nat start) (Z.of_nat (start + S k))); [lia|]; simpl.
    replace (start + S k) with (S start + k) by lia.
    rewrite IH by lia; reflexivity.
Qed.

Lemma nth_pred_length_last {A} (l : list A) (d : A) :
  match length l with 0 => d | S n => nth n l d end = last l d.
Proof.
  induction l as [|x l IH]; [reflexivity|].
  destruct l as [|y l]; [reflexivity|].
  simpl length in *; simpl nth; simpl last in *; exact IH.
Qed.

Lemma lookup_In (props : list (jsstring * JSValue)) (k : jsstring) (v : JSValue) :
  NoDup (map fst props) -> In (k, v) props -> lookup k props = Some v.
Proof.
  induction props as [|[k' v'] props IH]; simpl; intros N H; [contradiction|].
  inversion N as [|? ? Hnotin N']; subst.
  destruct H as [H|H].
  - injection H as -> ->; rewrite jsstring_eqb_refl; reflexivity.
  - rewrite jsstring_eqb_neq; [auto|].
    intros ->; apply Hnotin; change k with (fst (k, v)); apply in_map; exact H.
Qed.

(** ** The composer *)

(** C4.  When the text is empty or made of white space only and no file is
    attached, [handleSend], of any render that shows the composer as it
    is, changes nothing: the messages, the composer, the busy flag, the
    pending requests are those it was called with. *)
Theorem C4_send_without_content_is_noop (render : State) (w : World) :
  shows_composer_of render w ->
  forallb is_white_space (input (ui w)) = true ->
  files (ui w) = [] ->
  handleSend_in render w = w.
Proof.
  intros [Hi Hf] Htext Hfiles.
  unfold handleSend_in.
  rewrite <- Hi in Htext; rewrite <- Hf in Hfiles.
  rewrite (proj2 (send_guard_iff render) (conj Htext Hfiles)).
  reflexivity.
Qed.

Lemma C4_witness :
  let w := with_ui (setInput (js "   ")) init in handleSend w = w.
Proof.
  apply (C4_send_without_content_is_noop
           (rendered (with_ui (setInput (js "   ")) init))
           (with_ui (setInput (js "   ")) init));
    [split; reflexivity | reflexivity | reflexivity].
Defined.

(** What a [handleSend] that passes its guard does, whatever the render
    that created it: the list becomes the [messages] of that render
    followed by the new message and the placeholder. *)
Lemma handleSend_in_proceeds (render : State) (w : World) :
  forallb is_white_space (input render) = false \/ files render <> [] ->
  handleSend_in render w =
    {| ui := {| messages := messages render
                            ++ [(next_ref w, user_message render); LOADING_MESSAGE];
                input := [];
                isDragging := isDragging (ui w);
                files := [];
                isLoading := true |};
       rendered := {| messages := messages render
                                  ++ [(next_ref w, user_message render);
                                      LOADING_MESSAGE];
                      input := [];
                      isDragging := isDragging (rendered w);
                      files := [];
                      isLoading := true |};
       next_ref := S (next_ref w);
       inflight := inflight w
                   ++ [Field (js "input") (VStr (input render))
                       :: map (fun file =>
                                 FileField (js "files") (FileInfo.data file)
                                   (FileInfo.name file))
                            (files render)];
       console := console w |}.
Proof.
  intros H.
  unfold handleSend_in.
  destruct (negb (truthy (trim (input render))) && (length (files render) =? 0)) eqn:G.
  - apply send_guard_iff in G; destruct G as [G1 G2].
    destruct H as [H|H]; [congruence | contradiction].
  - unfold handleSend_updates, setMessages, setInput, setFiles, setIsLoading,
      user_message; simpl.
    rewrite <- app_assoc; reflexivity.
Qed.

(** C9.  With a text made of white space only and at least one attached
    file, [handleSend], of any render that shows the composer as it is, is
    not a no-op, and both the stored user message and the [input] field of
    the request carry the text as typed: [trim] serves the emptiness test
    only. *)
Theorem C9_whitespace_text_with_files_is_sent_untrimmed
        (render : State) (w : World) :
  shows_composer_of render w ->
  forallb is_white_space (input (ui w)) = true ->
  files (ui w) <> [] ->
  let w' := handleSend_in render w in
  w' <> w
  /\ (exists newMessage,
        messages (ui w') = messages render ++ [newMessage; LOADING_MESSAGE]
        /\ Message.sender (snd newMessage) = user
        /\ Message.text (snd newMessage) = VStr (input (ui w)))
  /\ (exists fileFields,
        inflight w' = inflight w
                      ++ [Field (js "input") (VStr (input (ui w))) :: fileFields]).
Proof.
  intros [Hi Hf] _ Hfiles w'; subst w'.
  rewrite <- Hf in Hfiles; rewrite <- Hi.
  rewrite (handleSend_in_proceeds render w (or_intror Hfiles)).
  split; [|split].
  - intros E. apply (f_equal next_ref) in E; simpl in E; lia.
  - eexists; simpl; repeat split.
  - eexists; simpl; reflexivity.
Qed.

Lemma C9_witness :
  let w := with_ui (handleFiles [a_file]) (with_ui (setInput (js "  ")) init) in
  let w' := handleSend w in
  w' <> w
  /\ (exists newMessage,
        messages (ui w') = messages (ui w) ++ [newMessage; LOADING_MESSAGE]
        /\ Message.sender (snd newMessage) = user
        /\ Message.text (snd newMessage) = VStr (input (ui w)))
  /\ (exists fileFields,
        inflight w' = inflight w
                      ++ [Field (js "input") (VStr (input (ui w))) :: fileFields]).
Proof.
  apply (C9_whitespace_text_with_files_is_sent_untrimmed
           (rendered (with_ui (handleFiles [a_file])
                        (with_ui (setInput (js "  ")) init)))
           (with_ui (handleFiles [a_file]) (with_ui (setInput (js "  ")) init))).
  - split; reflexivity.
  - reflexivity.
  - simpl; discriminate.
Defined.

(** C7.  [removeFile] with an index at or beyond the length of the
    attachment list changes nothing; with the position [i] of an element it
    leaves the list without that element, the others in their order, and
    the rest of the state as it is. *)
Theorem C7_removeFile (s : State) (index : Z) :
  ((Z.of_nat (length (files s)) <= index)%Z -> removeFile index s = s)
  /\ (forall i : nat,
        i < length (files s) -> index = Z.of_nat i ->
        files (removeFile index s) = firstn i (files s) ++ skipn (S i) (files s)
        /\ length (files (removeFile index s)) = length (files s) - 1
        /\ messages (removeFile index s) = messages s
        /\ input (removeFile index s) = input s
        /\ isDragging (removeFile index s) = isDragging s
        /\ isLoading (removeFile index s) = isLoading s).
Proof.
  split.
  - intros H. unfold removeFile, setFiles, filter_index.
    rewrite filter_from_above by (simpl; lia).
    destruct s; reflexivity.
  - intros i Hi ->.
    assert (E : files (removeFile (Z.of_nat i) s)
                = firstn i (files s) ++ skipn (S i) (files s)).
    { unfold removeFile, setFiles, filter_index; cbn [files].
      pose proof (filter_from_at (files s) i 0 Hi) as E.
      change (0 + i) with i in E; exact E. }
    rewrite E, length_app, firstn_length_le, length_skipn by lia.
    repeat split; lia.
Qed.

Lemma C7_witness :
  let s := handleFiles [a_file; b_file; a_file] (ui init) in
  removeFile 3 s = s
  /\ files (removeFile 1 s) = [FileInfo_of a_file; FileInfo_of a_file]
  /\ messages (removeFile 1 s) = messages s.
Proof.
  split; [|split].
  - apply (proj1 (C7_removeFile (handleFiles [a_file; b_file; a_file] (ui init)) 3)).
    simpl; lia.
  - apply (proj2 (C7_removeFile (handleFiles [a_file; b_file; a_file] (ui init)) 1) 1).
    + simpl; lia.
    + reflexivity.
  - apply (proj2 (C7_removeFile (handleFiles [a_file; b_file; a_file] (ui init)) 1) 1).
    + simpl; lia.
    + reflexivity.
Defined.

(** C8.  [handleFiles] puts the new files after the pending ones, in the
    order they arrive, and drops none whatever their names: the attachment
    list becomes the old list followed by the new files.  A drop clears the
    drag highlight and attaches the dropped files the same way. *)
Theorem C8_files_are_appended_in_order (s : State) (newFiles : list File) :
  files (handleFiles newFiles s) = files s ++ map FileInfo_of newFiles
  /\ map FileInfo.name (files (handleFiles newFiles s))
     = map FileInfo.name (files s) ++ map file_name newFiles
  /\ isDragging (handleFileDrop newFiles s) = false
  /\ files (handleFileDrop newFiles s) = files s ++ map FileInfo_of newFiles
  /\ messages (handleFileDrop newFiles s) = messages s
  /\ input (handleFileDrop newFiles s) = input s
  /\ isLoading (handleFileDrop newFiles s) = isLoading s.
Proof.
  unfold handleFileDrop, handleFiles, setFiles, setIsDragging, FileInfo_of, new_Blob;
    simpl.
  repeat split.
  rewrite map_app, map_map; reflexivity.
Qed.

(** ** The send cycle after the fetch *)

Section Resume.

Variable index_key : JSValue -> Result jsstring.

(** The [catch] branch followed by [finally]. *)
Lemma handleSend_resume_catch (settled : FetchResult) (w : World) (error : Exn) :
  sendMessageToServer_resume index_key (next_ref w) settled = inl error ->
  handleSend_resume index_key settled w
  = ({| ui := {| messages := filter not_LOADING_MESSAGE (messages (ui w))
                             ++ [(S (next_ref w), error_message)];
                 input := input (ui w);
                 isDragging := isDragging (ui w);
                 files := files (ui w);
                 isLoading := false |};
        rendered := rendered w;
        next_ref := S (S (next_ref w));
        inflight := inflight w;
        console := console w ++ [error] |},
     ret tt).
Proof.
  intros H; unfold handleSend_resume; rewrite H; reflexivity.
Qed.

(** The [try] branch followed by [finally]. *)
Lemma handleSend_resume_try (settled : FetchResult) (w : World)
      (answers : list MessageObj) :
  sendMessageToServer_resume index_key (next_ref w) settled = inr answers ->
  handleSend_resume index_key settled w
  = ({| ui := {| messages := filter not_LOADING_MESSAGE (messages (ui w))
                             ++ answers;
                 input := input (ui w);
                 isDragging := isDragging (ui w);
                 files := files (ui w);
                 isLoading := false |};
        rendered := rendered w;
        next_ref := S (S (next_ref w));
        inflight := inflight w;
        console := console w |},
     ret tt).
Proof.
  intros H; unfold handleSend_resume; rewrite H; reflexivity.
Qed.

(** The transport answers with one message, allocated at [fresh]. *)
Lemma sendMessageToServer_one_answer (fresh : ref) (settled : FetchResult)
      (answers : list MessageObj) :
  sendMessageToServer_resume index_key fresh settled = inr answers ->
  exists m, answers = [(fresh, m)] /\ Message.sender m = agent.
Proof.
  unfold sendMessageToServer_resume, bind, ret, throw.
  destruct settled as [e|response]; [discriminate|].
  repeat match goal with
         | |- context [match ?x with _ => _ end] => destruct x; try discriminate
         end.
  intros H; injection H as <-; eexists; split; reflexivity.
Qed.

Lemma transport_failure_throws (fresh : ref) (settled : FetchResult) :
  transport_failure settled ->
  exists error, sendMessageToServer_resume index_key fresh settled = inl error.
Proof.
  destruct settled as [e|response]; simpl.
  - intros _; exists e; reflexivity.
  - intros [H|[e H]].
    + rewrite H; simpl; eexists; reflexivity.
    + destruct (ok response); simpl; [|eexists; reflexivity].
      rewrite H; exists e; reflexivity.
Qed.

Lemma step_Settle (w : World) (k : nat) (settled : FetchResult) (request : FormData) :
  nth_error (inflight w) k = Some request ->
  step index_key w (Settle k settled)
  = Some (fst (handleSend_resume index_key settled (settle_pending k w))).
Proof. intros H; simpl; rewrite H; reflexivity. Qed.

Lemma filter_without_sentinel (l : list MessageObj) :
  without_sentinel l (filter not_LOADING_MESSAGE l).
Proof.
  induction l as [|msg l IH]; simpl; [constructor|].
  unfold not_LOADING_MESSAGE at 1.
  destruct (Nat.eqb_spec (fst msg) (fst LOADING_MESSAGE)); simpl.
  - apply ws_sentinel; assumption.
  - apply ws_other; assumption.
Qed.

Lemma messages_after_Settle (w w' : World) (k : nat) (settled : FetchResult) :
  step index_key w (Settle k settled) = Some w' ->
  exists appended,
    messages (ui w') = filter not_LOADING_MESSAGE (messages (ui w)) ++ appended
    /\ length appended = 1.
Proof.
  destruct (nth_error (inflight w) k) eqn:Hk;
    [rewrite (step_Settle w k settled _ Hk) | simpl; rewrite Hk; discriminate].
  intros H.
  assert (E' : w' = fst (handleSend_resume index_key settled (settle_pending k w)))
    by congruence.
  subst w'; clear H.
  destruct (sendMessageToServer_resume index_key (next_ref (settle_pending k w)) settled)
    as [error|answers] eqn:E.
  - rewrite (handleSend_resume_catch settled (settle_pending k w) error E); simpl.
    eexists; split; reflexivity.
  - rewrite (handleSend_resume_try settled (settle_pending k w) answers E); simpl.
    destruct (sendMessageToServer_one_answer _ _ _ E) as [m [-> _]].
    eexists; split; reflexivity.
Qed.

(** C2.  When the fetch of a pending request fails (it rejects, the status
    is not OK, or the body does not parse), the transport throws, the
    [catch] of [handleSend] takes it: one agent message with the fixed
    error text is appended in place of the placeholder, the busy flag is
    false, the promise of [handleSend] is fulfilled, and the request
    leaves the pending ones with no other request issued. *)
Theorem C2_transport_failure_is_caught
        (w : World) (k : nat) (request : FormData) (settled : FetchResult) :
  nth_error (inflight w) k = Some request ->
  transport_failure settled ->
  exists error,
    sendMessageToServer_resume index_key (next_ref w) settled = inl error
    /\ snd (handleSend_resume index_key settled (settle_pending k w)) = ret tt
    /\ step index_key w (Settle k settled)
       = Some {| ui := {| messages := filter not_LOADING_MESSAGE (messages (ui w))
                                      ++ [(S (next_ref w), error_message)];
                          input := input (ui w);
                          isDragging := isDragging (ui w);
                          files := files (ui w);
                          isLoading := false |};
                 rendered := rendered w;
                 next_ref := S (S (next_ref w));
                 inflight := remove_nth k (inflight w);
                 console := console w ++ [error] |}.
Proof.
  intros Hk Hfail.
  destruct (transport_failure_throws (next_ref w) settled Hfail) as [error E].
  exists error; split; [exact E|].
  rewrite (step_Settle w k settled _ Hk).
  rewrite (handleSend_resume_catch settled (settle_pending k w) error E).
  split; reflexivity.
Qed.

(** C6.  When a fetch settles, a message that is not the sentinel object
    stays in the list, whatever its text (the text of the placeholder
    included), and the messages kept are those that are not the sentinel
    object, in their order, followed by what the send cycle appends. *)
Theorem C6_only_the_sentinel_object_is_removed
        (w w' : World) (k : nat) (settled : FetchResult) (msg : MessageObj) :
  step index_key w (Settle k settled) = Some w' ->
  In msg (messages (ui w)) ->
  fst msg <> fst LOADING_MESSAGE ->
  In msg (messages (ui w'))
  /\ exists kept appended,
       messages (ui w') = kept ++ appended
       /\ without_sentinel (messages (ui w)) kept.
Proof.
  intros Hstep Hin Hneq.
  destruct (messages_after_Settle _ _ _ _ Hstep) as [appended [E _]].
  split.
  - rewrite E; apply in_or_app; left.
    apply filter_In; split; [exact Hin|].
    unfold not_LOADING_MESSAGE.
    destruct (Nat.eqb_spec (fst msg) (fst LOADING_MESSAGE)); [contradiction|reflexivity].
  - exists (filter not_LOADING_MESSAGE (messages (ui w))), appended.
    split; [exact E | apply filter_without_sentinel].
Qed.

Lemma sequence_cons {A} (c : Result A) (l : list (Result A)) :
  sequence (c :: l) = (x <- c ;; xs <- sequence l ;; ret (x :: xs)).
Proof. reflexivity. Qed.

Lemma images_of_looked_up (props : list (jsstring * JSValue))
      (l : list (jsstring * jsstring)) :
  (forall kv, In kv l -> lookup (fst kv) props = Some (VStr (snd kv))) ->
  sequence
    (map (fun x =>
            v <- Get (VObj props) x ;;
            string_plus (js "data:image/png;base64,") v)
         (map fst l))
  = ret (map (fun kv => data_uri (snd kv)) l).
Proof.
  induction l as [|kv l IH]; intros L; [reflexivity|].
  cbn [map]; rewrite sequence_cons, IH
    by (intros kv' H; apply L; right; exact H).
  unfold Get, own_property; rewrite (L kv (or_introl eq_refl)).
  reflexivity.
Qed.

Lemma images_of_strings (f : list (jsstring * jsstring)) :
  NoDup (map fst f) ->
  sequence
    (map (fun x =>
            v <- Get (files_object f) x ;;
            string_plus (js "data:image/png;base64,") v)
         (map fst f))
  = ret (map (fun kv => data_uri (snd kv)) f).
Proof.
  intros N; apply images_of_looked_up.
  intros kv H; apply lookup_In.
  - rewrite map_map; simpl; exact N.
  - apply (in_map (fun kv => (fst kv, VStr (snd kv))) f kv H).
Qed.

Lemma sendMessageToServer_reply
      (fresh : ref) (response : Response) (responseData : JSValue)
      (m : list JSValue) (f : list (jsstring * jsstring)) :
  ok response = true ->
  json response = inr responseData ->
  Get responseData (js "messages") = ret (VArr m) ->
  Get responseData (js "files") = ret (files_object f) ->
  NoDup (map fst f) ->
  sendMessageToServer_resume index_key fresh (Resolved response)
  = ret [(fresh, reply (last m VUndefined) f)].
Proof.
  intros Hok Hjson Hm Hf N.
  unfold sendMessageToServer_resume.
  rewrite Hok, Hjson; simpl negb; cbv iota.
  unfold bind at 1. rewrite Hm. unfold bind at 1, ret at 1.
  unfold last_element, bind at 1, ret at 1.
  rewrite Hf. unfold bind at 1, ret at 1.
  unfold Object_keys, files_object at 1, bind at 1, ret at 1.
  replace (map fst (map (fun kv : jsstring * jsstring => (fst kv, VStr (snd kv))) f))
    with (map fst f) by (rewrite map_map; reflexivity).
  rewrite (images_of_strings f N).
  unfold bind, ret, reply.
  rewrite nth_pred_length_last; reflexivity.
Qed.

(** C3.  For an OK response whose body has the list [m] as [messages] and
    a mapping [f] of strings as [files], the transport returns one agent
    message: its text is the last element of [m] ([undefined] when [m] is
    empty) and its images are, key by key, the data URI prefix followed
    by the value; that message is what the send cycle appends. *)
Theorem C3_reply_text_is_last_message_one_image_per_file
        (w : World) (k : nat) (request : FormData) (response : Response)
        (responseData : JSValue) (m : list JSValue)
        (f : list (jsstring * jsstring)) :
  nth_error (inflight w) k = Some request ->
  ok response = true ->
  json response = inr responseData ->
  Get responseData (js "messages") = ret (VArr m) ->
  Get responseData (js "files") = ret (files_object f) ->
  NoDup (map fst f) ->
  sendMessageToServer_resume index_key (next_ref w) (Resolved response)
  = ret [(next_ref w, reply (last m VUndefined) f)]
  /\ Message.images (reply (last m VUndefined) f)
     = Some (map (fun kv => js "data:image/png;base64," ++ snd kv) f)
  /\ exists w',
       step index_key w (Settle k (Resolved response)) = Some w'
       /\ messages (ui w')
          = filter not_LOADING_MESSAGE (messages (ui w))
            ++ [(next_ref w, reply (last m VUndefined) f)].
Proof.
  intros Hk Hok Hjson Hm Hf N.
  pose proof (sendMessageToServer_reply (next_ref w) response responseData m f
                Hok Hjson Hm Hf N) as E.
  split; [exact E|]. split; [reflexivity|].
  eexists; split; [apply (step_Settle w k (Resolved response) request Hk)|].
  rewrite (handleSend_resume_try (Resolved response) (settle_pending k w) _ E).
  reflexivity.
Qed.

Lemma sendMessageToServer_without_files
      (fresh : ref) (response : Response) (responseData : JSValue) :
  ok response = true ->
  json response = inr responseData ->
  own_property responseData (js "files") = None
  \/ own_property responseData (js "files") = Some VNull ->
  exists error,
    sendMessageToServer_resume index_key fresh (Resolved response) = inl error.
Proof.
  intros Hok Hjson Hfiles.
  unfold sendMessageToServer_resume.
  rewrite Hok, Hjson; simpl negb; cbv iota.
  unfold bind at 1, ret at 1.
  destruct (Get responseData (js "messages")) as [e|msgs] eqn:Em;
    [exists e; reflexivity|].
  unfold bind at 1.
  destruct (last_element index_key msgs) as [e|text]; [exists e; reflexivity|].
  unfold bind at 1.
  destruct responseData; simpl in Em; try discriminate;
    unfold Get; destruct Hfiles as [-> | ->]; simpl; eexists; reflexivity.
Qed.

Lemma sendMessageToServer_primitive_files
      (fresh : ref) (response : Response) (responseData : JSValue)
      (m : list JSValue) (files_value : JSValue) :
  ok response = true ->
  json response = inr responseData ->
  Get responseData (js "messages") = ret (VArr m) ->
  Get responseData (js "files") = ret files_value ->
  (exists b, files_value = VBool b) \/ (exists n, files_value = VNum n) ->
  sendMessageToServer_resume index_key fresh (Resolved response)
  = ret [(fresh, reply (last m VUndefined) [])].
Proof.
  intros Hok Hjson Hm Hf Hprim.
  unfold sendMessageToServer_resume.
  rewrite Hok, Hjson; simpl negb; cbv iota.
  unfold bind at 1. rewrite Hm. unfold bind at 1, ret at 1.
  unfold last_element, bind at 1, ret at 1.
  rewrite Hf. unfold bind at 1, ret at 1.
  rewrite nth_pred_length_last.
  destruct Hprim as [[b ->] | [n ->]]; reflexivity.
Qed.

(** C10, as the code has it.  For an OK response whose body has no
    [files] property, or has [null] there, the transport throws, and the
    send cycle appends the error message and no reply.  A [files] value
    that is a boolean or a number does not throw: [Object.keys] finds no
    key, and the reply has no image.  An OK response with an empty
    [messages] array and a [files] mapping of strings does not throw
    either, and the text of its reply is [undefined]. *)
Theorem C10_missing_files_throws_empty_messages_does_not
        (w : World) (k : nat) (request : FormData) (response : Response)
        (responseData : JSValue) :
  nth_error (inflight w) k = Some request ->
  ok response = true ->
  json response = inr responseData ->
  (own_property responseData (js "files") = None
   \/ own_property responseData (js "files") = Some VNull ->
   (exists error,
      sendMessageToServer_resume index_key (next_ref w) (Resolved response)
      = inl error)
   /\ exists w',
        step index_key w (Settle k (Resolved response)) = Some w'
        /\ messages (ui w')
           = filter not_LOADING_MESSAGE (messages (ui w))
             ++ [(S (next_ref w), error_message)])
  /\ (forall (m : list JSValue) (files_value : JSValue),
        Get responseData (js "messages") = ret (VArr m) ->
        Get responseData (js "files") = ret files_value ->
        (exists b, files_value = VBool b) \/ (exists n, files_value = VNum n) ->
        sendMessageToServer_resume index_key (next_ref w) (Resolved response)
        = ret [(next_ref w, reply (last m VUndefined) [])])
  /\ (forall f : list (jsstring * jsstring),
        Get responseData (js "messages") = ret (VArr []) ->
        Get responseData (js "files") = ret (files_object f) ->
        NoDup (map fst f) ->
        sendMessageToServer_resume index_key (next_ref w) (Resolved response)
        = ret [(next_ref w, reply VUndefined f)]).
Proof.
  intros Hk Hok Hjson; split; [|split].
  - intros Hfiles.
    destruct (sendMessageToServer_without_files (next_ref w) response responseData
                Hok Hjson Hfiles) as [error E].
    split; [exists error; exact E|].
    eexists; split; [apply (step_Settle w k (Resolved response) request Hk)|].
    rewrite (handleSend_resume_catch (Resolved response) (settle_pending k w) error E).
    reflexivity.
  - intros m files_value Hm Hf Hprim.
    exact (sendMessageToServer_primitive_files (next_ref w) response responseData
             m files_value Hok Hjson Hm Hf Hprim).
  - intros f Hm Hf N.
    exact (sendMessageToServer_reply (next_ref w) response responseData [] f
             Hok Hjson Hm Hf N).
Qed.

End Resume.

(** ** The placeholder *)

Lemma placeholders_app (l l' : list MessageObj) :
  placeholders (l ++ l') = placeholders l + placeholders l'.
Proof. unfold placeholders; rewrite filter_app, length_app; reflexivity. Qed.

Lemma placeholders_filter (l : list MessageObj) :
  placeholders (filter not_LOADING_MESSAGE l) = 0.
Proof.
  unfold placeholders; induction l as [|msg l IH]; simpl; [reflexivity|].
  destruct (not_LOADING_MESSAGE msg) eqn:E; simpl; [rewrite E; simpl|]; exact IH.
Qed.

Lemma placeholders_fresh (r : ref) (m : Message.t) :
  1 <= r -> placeholders [(r, m)] = 0.
Proof.
  intros H; unfold placeholders, not_LOADING_MESSAGE; simpl.
  destruct r; [lia | reflexivity].
Qed.

(** What [handleSend] does, whatever the render that created it. *)
Lemma handleSend_in_cases (render : State) (w : World) :
  handleSend_in render w = w
  \/ handleSend_in render w =
       {| ui := {| messages := messages render
                               ++ [(next_ref w, user_message render); LOADING_MESSAGE];
                   input := [];
                   isDragging := isDragging (ui w);
                   files := [];
                   isLoading := true |};
          rendered := {| messages := messages render
                                     ++ [(next_ref w, user_message render);
                                         LOADING_MESSAGE];
                         input := [];
                         isDragging := isDragging (rendered w);
                         files := [];
                         isLoading := true |};
          next_ref := S (next_ref w);
          inflight := inflight w
                      ++ [Field (js "input") (VStr (input render))
                          :: map (fun file =>
                                    FileField (js "files") (FileInfo.data file)
                                      (FileInfo.name file))
                               (files render)];
          console := console w |}.
Proof.
  destruct (forallb is_white_space (input render)) eqn:Ht.
  - destruct (files render) as [|file fs] eqn:Hf.
    + left. unfold handleSend_in.
      rewrite (proj2 (send_guard_iff render) (conj Ht Hf)); reflexivity.
    + right. rewrite <- Hf. apply handleSend_in_proceeds.
      right; rewrite Hf; discriminate.
  - right. apply handleSend_in_proceeds. left; exact Ht.
Qed.

Section SingleFlight.

Variable index_key : JSValue -> Result jsstring.

Lemma handleSend_single_flight (w : World) :
  isLoading (rendered w) = false -> single_flight w -> single_flight (handleSend w).
Proof.
  intros Hidle (Href & Hinv & Hpage).
  destruct (Hpage Hidle) as [Hm Hl]; rewrite Hl in Hinv; destruct Hinv as [Hp Hq].
  unfold handleSend.
  destruct (handleSend_in_cases (rendered w) w) as [-> | ->].
  - split; [exact Href|]. split; [rewrite Hl; split; assumption | exact Hpage].
  - split; [simpl; lia|]. split; [|simpl; discriminate]. simpl.
    rewrite Hm, !placeholders_app, Hp, Hq.
    change [(next_ref w, user_message (rendered w)); LOADING_MESSAGE]
      with ([(next_ref w, user_message (rendered w))] ++ [LOADING_MESSAGE]).
    rewrite placeholders_app, (placeholders_fresh _ _ Href).
    split; reflexivity.
Qed.

Lemma handleSend_resume_single_flight (settled : FetchResult) (w : World) :
  1 <= next_ref w -> inflight w = [] -> isLoading (rendered w) = true ->
  single_flight (fst (handleSend_resume index_key settled w)).
Proof.
  intros Href Hq Hpage.
  destruct (sendMessageToServer_resume index_key (next_ref w) settled)
    as [error|answers] eqn:E.
  - rewrite (handleSend_resume_catch index_key settled w error E).
    split; simpl; [lia|]. split; [|rewrite Hpage; discriminate].
    rewrite placeholders_app, placeholders_filter, placeholders_fresh by lia.
    split; [reflexivity | exact Hq].
  - rewrite (handleSend_resume_try index_key settled w answers E).
    destruct (sendMessageToServer_one_answer index_key _ _ _ E) as [m [-> _]].
    split; simpl; [lia|]. split; [|rewrite Hpage; discriminate].
    rewrite placeholders_app, placeholders_filter, placeholders_fresh by lia.
    split; [reflexivity | exact Hq].
Qed.

Lemma with_ui_single_flight (f : State -> State) (w : World) :
  (forall s, messages (f s) = messages s) ->
  (forall s, isLoading (f s) = isLoading s) ->
  single_flight w -> single_flight (with_ui f w).
Proof.
  intros Hm Hl (Href & Hinv & Hpage).
  unfold single_flight, with_ui; simpl.
  rewrite !Hm, !Hl. repeat split; try assumption; apply Hpage; assumption.
Qed.

Lemma step_single_flight (w w' : World) (e : Event) :
  by_button e = true ->
  single_flight w ->
  step index_key w e = Some w' ->
  single_flight w'.
Proof.
  intros Hb Hinv.
  destruct e as [value|key| |fl|fl| | |index|k settled| ];
    try (simpl; intros H; injection H as <-;
         apply with_ui_single_flight; [reflexivity | reflexivity | exact Hinv]).
  - simpl in Hb |- *; rewrite (proj1 (negb_true_iff _) Hb).
    intros H; injection H as <-; exact Hinv.
  - simpl; destruct (isLoading (rendered w)) eqn:Hidle; [discriminate|].
    intros H; injection H as <-.
    apply handleSend_single_flight; assumption.
  - simpl; destruct (index <? length (files (rendered w))); [|discriminate].
    intros H; injection H as <-.
    apply with_ui_single_flight; [reflexivity | reflexivity | exact Hinv].
  - destruct (nth_error (inflight w) k) as [request|] eqn:Hk;
      [rewrite (step_Settle index_key w k settled request Hk)
      | simpl; rewrite Hk; discriminate].
    intros H.
    assert (E : w' = fst (handleSend_resume index_key settled (settle_pending k w)))
      by congruence.
    subst w'; clear H.
    destruct Hinv as (Href & Hinv & Hpage).
    assert (Hbusy : isLoading (ui w) = true).
    { destruct (isLoading (ui w)); [reflexivity|].
      destruct Hinv as [_ Hq]; rewrite Hq in Hk; destruct k; discriminate. }
    rewrite Hbusy in Hinv; destruct Hinv as [_ Hq].
    apply handleSend_resume_single_flight; [exact Href | |].
    + simpl. destruct (inflight w) as [|x [|y q]]; try discriminate.
      destruct k as [|[|k]]; try discriminate; reflexivity.
    + simpl. destruct (isLoading (rendered w)) eqn:Hr; [reflexivity|].
      destruct (Hpage eq_refl) as [_ Hl]; congruence.
  - simpl; intros H; injection H as <-.
    destruct Hinv as (Href & Hinv & Hpage).
    split; [exact Href|]. split; [exact Hinv|]. simpl.
    intros Hl; split; [reflexivity | exact Hl].
Qed.

(** X1.  When every send goes through the button, which is disabled while
    [isLoading], the list never holds more than one placeholder. *)
Lemma at_most_one_placeholder_by_button (es : list Event) (w : World) :
  forallb by_button es = true ->
  run index_key init es = Some w ->
  placeholders (messages (ui w)) <= 1.
Proof.
  assert (G : forall es w0 w1,
             forallb by_button es = true -> single_flight w0 ->
             run index_key w0 es = Some w1 -> single_flight w1).
  { clear es w; induction es as [|e es IH]; simpl; intros w0 w1 Hb Hinv Hrun.
    - injection Hrun as <-; exact Hinv.
    - apply andb_true_iff in Hb; destruct Hb as [Hb Hbs].
      destruct (step index_key w0 e) as [w0'|] eqn:Hstep; [|discriminate].
      apply (IH w0' w1 Hbs); [|exact Hrun].
      exact (step_single_flight w0 w0' e Hb Hinv Hstep). }
  intros Hb Hrun.
  assert (I0 : single_flight init).
  { split; [simpl; auto|]. split; [simpl; auto|]. intros _; split; reflexivity. }
  destruct (G es init w Hb I0 Hrun) as (_ & Hinv & _).
  destruct (isLoading (ui w)); destruct Hinv as [Hp _]; lia.
Qed.

End SingleFlight.

(** C1, at the input on which the code breaks it.  The Enter key calls
    [handleSend] whether or not a send is pending: after a second message
    is sent that way while the first is in flight, [isLoading] being true,
    the list holds the placeholder twice. *)
Theorem C1_enter_while_loading_adds_second_placeholder :
  exists w1 w2,
    run plain_index_key init [Change (js "a"); KeyPress (js "Enter")] = Some w1
    /\ isLoading (ui w1) = true
    /\ placeholders (messages (ui w1)) = 1
    /\ run plain_index_key w1 [Change (js "b"); KeyPress (js "Enter")] = Some w2
    /\ run plain_index_key init enter_twice = Some w2
    /\ map fst (messages (ui w2)) = [1; fst LOADING_MESSAGE; 2; fst LOADING_MESSAGE]
    /\ placeholders (messages (ui w2)) = 2.
Proof.
  do 2 eexists; repeat split.
Qed.

(** C5, at the input on which the code breaks it.  [handleSend] sets the
    list to the [messages] of its render followed by the new message,
    where the placeholder is appended to the list as it is.  When the Enter
    key is handled after a reply has reached the state and before the page
    has rendered it, the list becomes that of the older render, with the
    new message and the placeholder: the new message is not appended to
    the list, and the reply is gone, also after the second reply. *)
Theorem C5_send_from_older_render_replaces_the_list :
  exists w w' w'',
    run plain_index_key init reply_before_render = Some w
    /\ texts w = [VStr (js "a"); VStr (js "to a")]
    /\ input (ui w) = js "b"
    /\ step plain_index_key w (KeyPress (js "Enter")) = Some w'
    /\ texts w' = [VStr (js "a"); VStr (js "Loading...");
                   VStr (js "b"); VStr (js "Loading...")]
    /\ (forall added, messages (ui w') <> messages (ui w) ++ added)
    /\ step plain_index_key w' (Settle 0 (ok_response body_to_b)) = Some w''
    /\ texts w'' = [VStr (js "a"); VStr (js "b"); VStr (js "to b")].
Proof.
  do 3 eexists; repeat split; try reflexivity.
  intros added H; cbv in H; discriminate H.
Qed.

(** ** Instances *)

Lemma C2_witness :
  (exists error w',
     step plain_index_key w_sent (Settle 0 (Rejected TypeError)) = Some w'
     /\ console w' = [error]
     /\ map snd (messages (ui w')) = [user_message (ui (world_after [Change (js "hi")]));
                                      error_message]
     /\ isLoading (ui w') = false /\ inflight w' = [])
  /\ (exists error w',
        step plain_index_key w_sent
          (Settle 0 (Resolved {| status := 500; statusText := js "Internal Server Error";
                                 json := inr body_a_b |})) = Some w'
        /\ console w' = [error]
        /\ isLoading (ui w') = false /\ inflight w' = [])
  /\ (exists error w',
        step plain_index_key w_sent
          (Settle 0 (Resolved {| status := 200; statusText := js "OK";
                                 json := inl SyntaxError |})) = Some w'
        /\ console w' = [error]
        /\ isLoading (ui w') = false /\ inflight w' = []).
Proof.
  split; [|split].
  - destruct (C2_transport_failure_is_caught plain_index_key w_sent 0
                (nth 0 (inflight w_sent) []) (Rejected TypeError) eq_refl I)
      as [error [_ [_ H]]].
    exists error; eexists; split; [exact H|]. repeat split.
  - destruct (C2_transport_failure_is_caught plain_index_key w_sent 0
                (nth 0 (inflight w_sent) [])
                (Resolved {| status := 500; statusText := js "Internal Server Error";
                             json := inr body_a_b |})
                eq_refl (or_introl eq_refl))
      as [error [_ [_ H]]].
    exists error; eexists; split; [exact H|]. repeat split.
  - destruct (C2_transport_failure_is_caught plain_index_key w_sent 0
                (nth 0 (inflight w_sent) [])
                (Resolved {| status := 200; statusText := js "OK";
                             json := inl SyntaxError |})
                eq_refl (or_intror (ex_intro _ SyntaxError eq_refl)))
      as [error [_ [_ H]]].
    exists error; eexists; split; [exact H|]. repeat split.
Defined.

Lemma C3_witness :
  sendMessageToServer_resume plain_index_key (next_ref w_sent) (ok_response body_a_b)
  = ret [(next_ref w_sent, reply (VStr (js "b")) [(js "x", js "iVBORw0KGgo=")])]
  /\ Message.images (reply (VStr (js "b")) [(js "x", js "iVBORw0KGgo=")])
     = Some [js "data:image/png;base64,iVBORw0KGgo="]
  /\ exists w',
       step plain_index_key w_sent (Settle 0 (ok_response body_a_b)) = Some w'
       /\ messages (ui w')
          = filter not_LOADING_MESSAGE (messages (ui w_sent))
            ++ [(next_ref w_sent, reply (VStr (js "b")) [(js "x", js "iVBORw0KGgo=")])].
Proof.
  apply (C3_reply_text_is_last_message_one_image_per_file plain_index_key w_sent 0
           (nth 0 (inflight w_sent) [])
           {| status := 200; statusText := js "OK"; json := inr body_a_b |}
           body_a_b [VStr (js "a"); VStr (js "b")] [(js "x", js "iVBORw0KGgo=")]);
    try reflexivity.
  repeat constructor; simpl; tauto.
Defined.

Lemma C6_witness :
  let msg : MessageObj := (2, reply (VStr (js "Loading...")) []) in
  Message.text (snd msg) = Message.text (snd LOADING_MESSAGE)
  /\ Message.sender (snd msg) = agent
  /\ exists w',
       step plain_index_key w_lookalike (Settle 0 (Rejected TypeError)) = Some w'
       /\ In msg (messages (ui w'))
       /\ exists kept appended,
            messages (ui w') = kept ++ appended
            /\ without_sentinel (messages (ui w_lookalike)) kept.
Proof.
  split; [reflexivity|]. split; [reflexivity|].
  eexists; split; [reflexivity|].
  apply (C6_only_the_sentinel_object_is_removed plain_index_key w_lookalike _ 0
           (Rejected TypeError) (2, reply (VStr (js "Loading...")) [])).
  - reflexivity.
  - right; left; reflexivity.
  - discriminate.
Defined.

(** The claim C10 as the specification words it fails on a body whose
    [files] is [true]: that value is not an object, and the transport
    answers with a reply instead of throwing. *)
Lemma C10_counterexample :
  own_property body_files_true (js "files") = Some (VBool true)
  /\ ~ (exists error,
          sendMessageToServer_resume plain_index_key 2 (ok_response body_files_true)
          = inl error)
  /\ sendMessageToServer_resume plain_index_key 2 (ok_response body_files_true)
     = ret [(2, reply (VStr (js "a")) [])].
Proof.
  split; [reflexivity|]. split; [|reflexivity].
  intros [error H]; discriminate H.
Qed.

Lemma C10_witness :
  (exists error,
     sendMessageToServer_resume plain_index_key (next_ref w_sent)
       (ok_response body_without_files) = inl error)
  /\ sendMessageToServer_resume plain_index_key (next_ref w_sent)
       (ok_response body_files_true)
     = ret [(next_ref w_sent, reply (VStr (js "a")) [])]
  /\ sendMessageToServer_resume plain_index_key (next_ref w_sent)
       (ok_response body_no_messages)
     = ret [(next_ref w_sent, reply VUndefined [(js "x", js "iVBORw0KGgo=")])].
Proof.
  split; [|split].
  - apply (proj1 (C10_missing_files_throws_empty_messages_does_not plain_index_key
                    w_sent 0 (nth 0 (inflight w_sent) [])
                    {| status := 200; statusText := js "OK";
                       json := inr body_without_files |}
                    body_without_files eq_refl eq_refl eq_refl)).
    left; reflexivity.
  - apply (proj1 (proj2 (C10_missing_files_throws_empty_messages_does_not
                    plain_index_key w_sent 0 (nth 0 (inflight w_sent) [])
                    {| status := 200; statusText := js "OK";
                       json := inr body_files_true |}
                    body_files_true eq_refl eq_refl eq_refl))
             [VStr (js "a")] (VBool true));
      [reflexivity | reflexivity | left; exists true; reflexivity].
  - apply (proj2 (proj2 (C10_missing_files_throws_empty_messages_does_not
                    plain_index_key w_sent 0 (nth 0 (inflight w_sent) [])
                    {| status := 200; statusText := js "OK";
                       json := inr body_no_messages |}
                    body_no_messages eq_refl eq_refl eq_refl))
             [(js "x", js "iVBORw0KGgo=")]);
      [reflexivity | reflexivity | repeat constructor; simpl; tauto].
Defined.

(** * Further properties *)

(** ** What an event does to the world *)

Lemma remove_nth_length {A} (l : list A) (k : nat) (x : A) :
  nth_error l k = Some x -> S (length (remove_nth k l)) = length l.
Proof.
  intros H. assert (Hk : k < length l) by (apply nth_error_Some; congruence).
  unfold remove_nth. rewrite length_app, firstn_length_le, length_skipn by lia.
  lia.
Qed.

Section Reachable.

Variable index_key : JSValue -> Result jsstring.

(** What [handleSend] does once the k-th fetch has settled. *)
Lemma settle_result (w : World) (k : nat) (settled : FetchResult) :
  exists (r : ref) (m : Message.t) (c : list Exn),
    fst (handleSend_resume index_key settled (settle_pending k w))
    = {| ui := {| messages := filter not_LOADING_MESSAGE (messages (ui w)) ++ [(r, m)];
                  input := input (ui w);
                  isDragging := isDragging (ui w);
                  files := files (ui w);
                  isLoading := false |};
         rendered := rendered w;
         next_ref := S (S (next_ref w));
         inflight := remove_nth k (inflight w);
         console := c |}
    /\ next_ref w <= r
    /\ Message.sender m = agent
    /\ (sendMessageToServer_resume index_key (next_ref w) settled = inr [(r, m)]
        /\ c = console w
        \/ exists error,
             sendMessageToServer_resume index_key (next_ref w) settled = inl error
             /\ m = error_message
             /\ c = console w ++ [error]).
Proof.
  destruct (sendMessageToServer_resume index_key (next_ref w) settled)
    as [error|answers] eqn:E.
  - rewrite (handleSend_resume_catch index_key settled (settle_pending k w) error E).
    exists (S (next_ref w)), error_message, (console w ++ [error]); simpl.
    repeat split; [lia|].
    right; exists error; repeat split.
  - rewrite (handleSend_resume_try index_key settled (settle_pending k w) answers E).
    destruct (sendMessageToServer_one_answer index_key _ _ _ E) as [m [-> Hm]].
    exists (next_ref w), m, (console w); simpl.
    repeat split; [lia | exact Hm | left; split; reflexivity].
Qed.

(** An event leaves the send cycle alone, or sends, or is a fetch that
    settles, or is the page that renders. *)
Lemma step_cases (w w' : World) (e : Event) :
  step index_key w e = Some w' ->
  (calls_handleSend e = false
   /\ from_the_page e = true
   /\ messages (ui w') = messages (ui w) /\ isLoading (ui w') = isLoading (ui w)
   /\ messages (rendered w') = messages (rendered w)
   /\ next_ref w' = next_ref w /\ inflight w' = inflight w
   /\ console w' = console w)
  \/ (calls_handleSend e = true /\ w' = handleSend_in (rendered w) w)
  \/ (exists k settled request,
        e = Settle k settled
        /\ nth_error (inflight w) k = Some request
        /\ w' = fst (handleSend_resume index_key settled (settle_pending k w)))
  \/ (e = Rerender
      /\ w' = {| ui := ui w; rendered := ui w; next_ref := next_ref w;
                 inflight := inflight w; console := console w |}).
Proof.
  destruct e as [value|key| |fl|fl| | |index|k settled| ];
    try solve [simpl; intros H; injection H as <-; left; repeat split].
  - simpl. destruct (jsstring_eqb key (js "Enter")) eqn:K;
      intros H; injection H as <-.
    + right; left; split; reflexivity.
    + left; repeat split.
  - simpl. destruct (isLoading (rendered w)); [discriminate|].
    intros H; injection H as <-. right; left; split; reflexivity.
  - simpl. destruct (index <? length (files (rendered w))); [|discriminate].
    intros H; injection H as <-; left; repeat split.
  - destruct (nth_error (inflight w) k) as [request|] eqn:Hk;
      [rewrite (step_Settle index_key w k settled request Hk)
      | simpl; rewrite Hk; discriminate].
    intros H. right; right; left; exists k, settled, request.
    repeat split; congruence.
  - simpl; intros H; injection H as <-. right; right; right; split; reflexivity.
Qed.

(** Induction over the worlds that sequences of events reach. *)
Lemma run_invariant (P : World -> Prop) :
  (forall w e w', P w -> step index_key w e = Some w' -> P w') ->
  forall (es : list Event) (w w' : World),
    P w -> run index_key w es = Some w' -> P w'.
Proof.
  intros Hstep; induction es as [|e es IH]; simpl; intros w w' Hw Hrun.
  - injection Hrun as <-; exact Hw.
  - destruct (step index_key w e) as [w1|] eqn:E; [|discriminate].
    exact (IH w1 w' (Hstep w e w1 Hw E) Hrun).
Qed.

End Reachable.

(** ** The send cycle over every sequence of events *)

Lemma filter_not_LOADING_MESSAGE_idem (l : list MessageObj) :
  filter not_LOADING_MESSAGE (filter not_LOADING_MESSAGE l)
  = filter not_LOADING_MESSAGE l.
Proof.
  induction l as [|msg l IH]; simpl; [reflexivity|].
  destruct (not_LOADING_MESSAGE msg) eqn:E; simpl; [rewrite E, IH|]; auto.
Qed.

Lemma not_LOADING_MESSAGE_fresh (r : ref) (m : Message.t) :
  1 <= r -> not_LOADING_MESSAGE (r, m) = true.
Proof. intros H; destruct r; [lia | reflexivity]. Qed.

Lemma count_by_app (who : Sender) (l l' : list MessageObj) :
  count_by who (l ++ l') = count_by who l + count_by who l'.
Proof. unfold count_by; rewrite filter_app, length_app; reflexivity. Qed.

Lemma conversation_sent (w : World) (m : Message.t) :
  1 <= next_ref w ->
  filter not_LOADING_MESSAGE (messages (ui w) ++ [(next_ref w, m); LOADING_MESSAGE])
  = conversation w ++ [(next_ref w, m)].
Proof.
  intros H; unfold conversation; rewrite filter_app; simpl.
  rewrite (not_LOADING_MESSAGE_fresh _ m H); reflexivity.
Qed.

Lemma conversation_settled (w : World) (r : ref) (m : Message.t) :
  1 <= r ->
  filter not_LOADING_MESSAGE
    (filter not_LOADING_MESSAGE (messages (ui w)) ++ [(r, m)])
  = conversation w ++ [(r, m)].
Proof.
  intros H; unfold conversation.
  rewrite filter_app, filter_not_LOADING_MESSAGE_idem; simpl.
  rewrite (not_LOADING_MESSAGE_fresh _ m H); reflexivity.
Qed.

Section SendCycle.

Variable index_key : JSValue -> Result jsstring.

Lemma step_send_cycle_invariant (w w' : World) (e : Event) :
  send_cycle_invariant w ->
  step index_key w e = Some w' ->
  send_cycle_invariant w'.
Proof.
  intros (Href & Hbusy & Hidle) Hstep.
  destruct (step_cases index_key w w' e Hstep)
    as [(_ & _ & Hm & Hl & _ & Hr & Hq & _)
       | [(_ & ->) | [(k & settled & request & _ & Hk & ->) | (_ & ->)]]].
  - unfold send_cycle_invariant.
    rewrite Hm, Hl, Hr, Hq; repeat split; try assumption; apply Hbusy; assumption.
  - destruct (handleSend_in_cases (rendered w) w) as [-> | ->];
      [repeat split; try assumption; apply Hbusy; assumption|].
    unfold send_cycle_invariant; simpl.
    rewrite !placeholders_app.
    repeat split; try lia; try discriminate.
    + intros E; apply app_eq_nil in E; destruct E as [_ E]; discriminate.
    + unfold placeholders at 2; simpl.
      rewrite (not_LOADING_MESSAGE_fresh _ (user_message (rendered w)) Href);
        simpl; lia.
  - destruct (settle_result index_key w k settled)
      as (r & m & c & -> & Hr & Hm & _).
    unfold send_cycle_invariant; simpl.
    rewrite placeholders_app, placeholders_filter, placeholders_fresh by lia.
    repeat split; try lia; discriminate.
  - repeat split; try assumption; apply Hbusy; assumption.
Qed.

Lemma init_send_cycle_invariant : send_cycle_invariant init.
Proof. repeat split; simpl; auto; discriminate. Qed.

Lemma reachable_send_cycle_invariant (es : list Event) (w : World) :
  run index_key init es = Some w -> send_cycle_invariant w.
Proof.
  apply (run_invariant index_key send_cycle_invariant
           (fun w0 e w1 => step_send_cycle_invariant w0 w1 e)
           es init w init_send_cycle_invariant).
Qed.

(** X2.  Whatever the events, the Enter key included: the busy flag is set
    exactly while a placeholder is in the list, and then a request is
    pending. *)
Theorem busy_exactly_while_placeholder_shown (es : list Event) (w : World) :
  run index_key init es = Some w ->
  (isLoading (ui w) = true <-> 1 <= placeholders (messages (ui w)))
  /\ (isLoading (ui w) = true -> inflight w <> []).
Proof.
  intros Hrun.
  destruct (reachable_send_cycle_invariant es w Hrun) as (_ & Hbusy & Hidle).
  split; [split|]; try (intros H; apply Hbusy; exact H).
  intros H; destruct (isLoading (ui w)); [reflexivity|].
  rewrite Hidle in H by reflexivity; lia.
Qed.

(** X4.  When a fetch settles, the busy flag is cleared and no placeholder
    is left, whether or not other requests are still pending; the pending
    requests are one fewer. *)
Theorem settling_clears_busy_flag_and_placeholders
        (es : list Event) (w w' : World) (k : nat) (settled : FetchResult) :
  run index_key init es = Some w ->
  step index_key w (Settle k settled) = Some w' ->
  isLoading (ui w') = false
  /\ placeholders (messages (ui w')) = 0
  /\ S (length (inflight w')) = length (inflight w).
Proof.
  intros Hrun Hstep.
  pose proof (reachable_send_cycle_invariant es w Hrun) as Hinv.
  destruct (step_send_cycle_invariant w w' (Settle k settled) Hinv Hstep)
    as (_ & _ & Hidle).
  destruct (nth_error (inflight w) k) as [request|] eqn:Hk;
    [rewrite (step_Settle index_key w k settled request Hk) in Hstep
    | simpl in Hstep; rewrite Hk in Hstep; discriminate].
  assert (E' : w' = fst (handleSend_resume index_key settled (settle_pending k w)))
    by congruence.
  subst w'; clear Hstep.
  destruct (settle_result index_key w k settled) as (r & m & c & E & _).
  rewrite E in Hidle |- *; simpl in Hidle |- *.
  split; [reflexivity|]. split; [apply Hidle; reflexivity|].
  exact (remove_nth_length (inflight w) k request Hk).
Qed.

(** An event that does not send from an older render keeps the messages
    and extends the conversation. *)
Lemma step_conversation (w w' : World) (e : Event) :
  1 <= next_ref w ->
  (calls_handleSend e = true -> messages (rendered w) = messages (ui w)) ->
  step index_key w e = Some w' ->
  1 <= next_ref w'
  /\ exists added,
       conversation w' = conversation w ++ added
       /\ count_by user added + length (inflight w)
          = count_by agent added + length (inflight w').
Proof.
  intros Href Hsees Hstep.
  destruct (step_cases index_key w w' e Hstep)
    as [(_ & _ & Hm & _ & _ & Hr & Hq & _)
       | [(Hc & ->) | [(k & settled & request & _ & Hk & ->) | (_ & ->)]]].
  - split; [lia|]. exists []. unfold conversation; rewrite Hm, Hq, app_nil_r.
    split; reflexivity.
  - destruct (handleSend_in_cases (rendered w) w) as [-> | ->].
    + split; [exact Href|]. exists []; rewrite app_nil_r; split; reflexivity.
    + split; [simpl; lia|]. exists [(next_ref w, user_message (rendered w))].
      split.
      * unfold conversation at 1; simpl. rewrite (Hsees Hc).
        apply (conversation_sent w (user_message (rendered w)) Href).
      * simpl; rewrite length_app; simpl; lia.
  - destruct (settle_result index_key w k settled)
      as (r & m & c & -> & Hr & Hm & _).
    split; [simpl; lia|]. exists [(r, m)]. split.
    + unfold conversation at 1; simpl. apply conversation_settled; lia.
    + pose proof (remove_nth_length (inflight w) k request Hk).
      unfold count_by, sent_by; simpl; rewrite Hm; simpl; lia.
  - split; [exact Href|]. exists []; rewrite app_nil_r; split; reflexivity.
Qed.

Lemma run_conversation (es : list Event) (w w' : World) :
  1 <= next_ref w ->
  sends_see_the_list index_key w es ->
  run index_key w es = Some w' ->
  exists added,
    conversation w' = conversation w ++ added
    /\ count_by user added + length (inflight w)
       = count_by agent added + length (inflight w').
Proof.
  revert w; induction es as [|e es IH]; simpl; intros w Href Hsees Hrun.
  - injection Hrun as <-. exists []; rewrite app_nil_r; split; reflexivity.
  - destruct Hsees as [Hsee Hsees].
    destruct (step index_key w e) as [w1|] eqn:E; [|discriminate].
    destruct (step_conversation w w1 e Href Hsee E) as (Href1 & added1 & E1 & C1).
    destruct (IH w1 Href1 Hsees Hrun) as (added & E' & C').
    exists (added1 ++ added). rewrite E', E1, app_assoc, !count_by_app.
    split; [reflexivity | lia].
Qed.

(** X3.  As long as every send is handled by a render that shows the list
    as it is, every user message is answered by an agent message (a reply
    or the error message) or has its request pending: the user messages
    are as many as the agent messages and the pending requests together. *)
Theorem user_messages_answered_or_pending (es : list Event) (w : World) :
  sends_see_the_list index_key init es ->
  run index_key init es = Some w ->
  answered_or_pending w.
Proof.
  intros Hsees Hrun.
  destruct (run_conversation es init w (le_n 1) Hsees Hrun) as (added & E & C).
  unfold answered_or_pending; rewrite E; simpl in *. lia.
Qed.

(** X5.  As long as every send is handled by a render that shows the list
    as it is, the conversation only grows: the messages other than the
    placeholder that are in the list stay there, in their order and at the
    front, and new ones come after them. *)
Theorem conversation_only_grows (es es' : list Event) (w w' : World) :
  run index_key init es = Some w ->
  sends_see_the_list index_key w es' ->
  run index_key w es' = Some w' ->
  exists added, conversation w' = conversation w ++ added.
Proof.
  intros Hrun Hsees Hrun'.
  destruct (reachable_send_cycle_invariant es w Hrun) as (Href & _).
  destruct (run_conversation es' w w' Href Hsees Hrun') as (added & E & _).
  exists added; exact E.
Qed.

(** X6.  Requests come from sends only, one at most, and a fetch that
    settles issues none: the pending requests after an event are those
    before it, but for a handler that calls [handleSend], which may add one
    at the end, and for the fetch that settles, which leaves them. *)
Theorem requests_come_from_sends_only (w w' : World) (e : Event) :
  step index_key w e = Some w' ->
  match e with
  | Settle k _ => inflight w' = remove_nth k (inflight w)
  | _ =>
      if calls_handleSend e
      then inflight w' = inflight w
           \/ exists request, inflight w' = inflight w ++ [request]
      else inflight w' = inflight w
  end.
Proof.
  intros Hstep.
  assert (Hsend : inflight (handleSend_in (rendered w) w) = inflight w
                  \/ exists request,
                       inflight (handleSend_in (rendered w) w)
                       = inflight w ++ [request]).
  { destruct (handleSend_in_cases (rendered w) w) as [-> | ->];
      [left; reflexivity | right; eexists; reflexivity]. }
  destruct e as [value|key| |fl|fl| | |index|k settled| ];
    try solve [simpl in Hstep |- *; injection Hstep as <-; reflexivity].
  - simpl in Hstep |- *.
    destruct (jsstring_eqb key (js "Enter")); injection Hstep as <-;
      [exact Hsend | reflexivity].
  - simpl in Hstep |- *. destruct (isLoading (rendered w)); [discriminate|].
    injection Hstep as <-; exact Hsend.
  - simpl in Hstep |- *.
    destruct (index <? length (files (rendered w))); [|discriminate].
    injection Hstep as <-; reflexivity.
  - destruct (nth_error (inflight w) k) as [request|] eqn:Hk;
      [rewrite (step_Settle index_key w k settled request Hk) in Hstep
      | simpl in Hstep; rewrite Hk in Hstep; discriminate].
    assert (E : w' = fst (handleSend_resume index_key settled (settle_pending k w)))
      by congruence.
    subst w'.
    destruct (settle_result index_key w k settled) as (r & m & c & -> & _).
    reflexivity.
Qed.


(** The page always shows the composer as it is: the text and the files
    change in user events only, whose updates the page renders at once. *)
Lemma page_shows_the_composer (es : list Event) (w : World) :
  run index_key init es = Some w -> shows_composer_of (rendered w) w.
Proof.
  apply (run_invariant index_key (fun w => shows_composer_of (rendered w) w));
    [|split; reflexivity].
  clear es w; intros w e w' [Hi Hf] Hstep.
  unfold shows_composer_of.
  destruct e as [value|key| |fl|fl| | |index|k settled| ].
  - injection Hstep as <-; simpl; rewrite Hf; split; reflexivity.
  - simpl in Hstep.
    destruct (jsstring_eqb key (js "Enter")); injection Hstep as <-;
      [|split; assumption].
    unfold handleSend.
    destruct (handleSend_in_cases (rendered w) w) as [-> | ->];
      split; try assumption; reflexivity.
  - simpl in Hstep.
    destruct (isLoading (rendered w)); [discriminate|]. injection Hstep as <-.
    unfold handleSend.
    destruct (handleSend_in_cases (rendered w) w) as [-> | ->];
      split; try assumption; reflexivity.
  - injection Hstep as <-; simpl; rewrite Hi, Hf; split; reflexivity.
  - injection Hstep as <-; simpl; rewrite Hi, Hf; split; reflexivity.
  - injection Hstep as <-; simpl; rewrite Hi, Hf; split; reflexivity.
  - injection Hstep as <-; simpl; rewrite Hi, Hf; split; reflexivity.
  - simpl in Hstep.
    destruct (index <? length (files (rendered w))); [|discriminate].
    injection Hstep as <-; simpl; rewrite Hi, Hf; split; reflexivity.
  - destruct (nth_error (inflight w) k) as [request|] eqn:Hk;
      [rewrite (step_Settle index_key w k settled request Hk) in Hstep
      | simpl in Hstep; rewrite Hk in Hstep; discriminate].
    assert (E : w' = fst (handleSend_resume index_key settled (settle_pending k w)))
      by congruence.
    subst w'.
    destruct (settle_result index_key w k settled) as (r & m & c & -> & _).
    split; assumption.
  - injection Hstep as <-; split; reflexivity.
Qed.

End SendCycle.

(** X8.  [handleSend] called again at once does nothing more: the first call
    leaves the composer empty, so pressing Enter twice sends one message. *)
Theorem handleSend_twice_sends_once (w : World) :
  handleSend (handleSend w) = handleSend w.
Proof.
  unfold handleSend.
  destruct (handleSend_in_cases (rendered w) w) as [E | E]; rewrite E;
    [exact E | reflexivity].
Qed.

(** ** Attaching, removing and sending files *)

Lemma removeFile_at (s : State) (i : nat) :
  i < length (files s) ->
  removeFile (Z.of_nat i) s
  = setFiles (fun fs => firstn i fs ++ skipn (S i) fs) s.
Proof.
  intros Hi; unfold removeFile, setFiles, filter_index.
  pose proof (filter_from_at (files s) i 0 Hi) as E.
  change (0 + i) with i in E; rewrite E; reflexivity.
Qed.

Lemma remove_nth_after_prefix {A B} (F : A -> B) (a : list B) (l : list A) (i : nat) :
  firstn (length a + i) (a ++ map F l) ++ skipn (S (length a + i)) (a ++ map F l)
  = a ++ map F (firstn i l ++ skipn (S i) l).
Proof.
  rewrite firstn_app, skipn_app, firstn_all2, skipn_all2 by lia.
  replace (length a + i - length a) with i by lia.
  replace (S (length a + i) - length a) with (S i) by lia.
  rewrite map_app, firstn_map, skipn_map, app_nil_l, <- app_assoc; reflexivity.
Qed.

(** X9.  Removing a file that was just attached undoes its attachment: after
    [handleFiles fl], [removeFile] at the position of the i-th new file
    gives what attaching [fl] without that file gives. *)
Theorem removing_an_attached_file_undoes_it (s : State) (fl : list File) (i : nat) :
  i < length fl ->
  removeFile (Z.of_nat (length (files s) + i)) (handleFiles fl s)
  = handleFiles (remove_nth i fl) s.
Proof.
  intros Hi.
  rewrite removeFile_at
    by (unfold handleFiles; simpl; rewrite length_app, length_map; lia).
  unfold handleFiles, setFiles, remove_nth;
    cbn [messages input isDragging files isLoading].
  rewrite remove_nth_after_prefix; reflexivity.
Qed.

(** X10.  [removeFile] with a negative index changes nothing. *)
Theorem removeFile_negative_index_is_noop (s : State) (index : Z) :
  (index < 0)%Z -> removeFile index s = s.
Proof.
  intros H; unfold removeFile, setFiles, filter_index.
  rewrite filter_from_below by (simpl; lia).
  destruct s; reflexivity.
Qed.

(** X11.  Files dropped on the thread and sent with the Enter key go out in
    one request, when the page shows the composer as it is: the text as
    typed first, then the files that were already attached and the dropped
    ones, in that order, each with its bytes, its type and its name; the
    drag highlight is off and the composer empty. *)
Theorem dropped_files_are_sent_in_order
        (index_key : JSValue -> Result jsstring) (w : World) (fl : list File) :
  shows_composer_of (rendered w) w ->
  fl <> [] ->
  exists w',
    run index_key w [Drop fl; KeyPress (js "Enter")] = Some w'
    /\ inflight w'
       = inflight w
         ++ [Field (js "input") (VStr (input (ui w)))
             :: map (fun file =>
                       FileField (js "files") (FileInfo.data file) (FileInfo.name file))
                  (files (ui w))
             ++ map (fun file =>
                       FileField (js "files")
                         {| blob_bytes := file_bytes file; blob_type := file_type file |}
                         (file_name file))
                  fl]
    /\ isDragging (ui w') = false
    /\ input (ui w') = []
    /\ files (ui w') = [].
Proof.
  intros [Hi Hf] Hfl. eexists; split; [reflexivity|].
  unfold handleSend. rewrite handleSend_in_proceeds.
  - simpl. rewrite Hi, Hf, map_app, map_map; simpl. repeat split.
  - right; simpl. destruct fl; [contradiction|].
    destruct (files (rendered w)); discriminate.
Qed.

(** ** The transport at odd responses *)

Section OddResponses.

Variable index_key : JSValue -> Result jsstring.

(** X12.  A status outside 200-299 decides alone: whatever the body, and
    whether or not it parses, the transport throws the error whose message
    is [Server error: ] followed by the status text. *)
Theorem non_OK_status_throws_before_the_body_is_read
        (fresh : ref) (n : N) (text : jsstring) (body : Result JSValue) :
  (n < 200 \/ 299 < n)%N ->
  sendMessageToServer_resume index_key fresh
    (Resolved {| status := n; statusText := text; json := body |})
  = inl (Error (js "Server error: " ++ text)).
Proof.
  intros H. unfold sendMessageToServer_resume, ok; simpl status.
  replace ((200 <=? n)%N && (n <=? 299)%N) with false; [reflexivity|].
  symmetry; apply andb_false_iff.
  destruct H as [H|H]; [left; apply N.leb_gt | right; apply N.leb_gt]; exact H.
Qed.

(** X13.  An OK response whose body is [null], or has no [messages]
    property, or has [null] there, makes the transport throw a [TypeError]
    whatever its [files]: the send cycle takes the error path. *)
Theorem missing_messages_throws
        (fresh : ref) (response : Response) (responseData : JSValue) :
  ok response = true ->
  json response = inr responseData ->
  own_property responseData (js "messages") = None
  \/ own_property responseData (js "messages") = Some VNull ->
  sendMessageToServer_resume index_key fresh (Resolved response) = inl TypeError.
Proof.
  intros Hok Hjson Hm.
  unfold sendMessageToServer_resume.
  rewrite Hok, Hjson; simpl negb; cbv iota.
  unfold bind at 1, ret at 1.
  destruct responseData; try reflexivity;
    unfold Get at 1; destruct Hm as [-> | ->]; reflexivity.
Qed.

(** X14.  When [messages] is a non-empty string instead of an array, the
    text of the reply is its last UTF-16 code unit. *)
Theorem string_messages_yield_last_code_unit
        (fresh : ref) (response : Response) (responseData : JSValue)
        (s : jsstring) (c : code_unit) (f : list (jsstring * jsstring)) :
  ok response = true ->
  json response = inr responseData ->
  Get responseData (js "messages") = ret (VStr (s ++ [c])) ->
  Get responseData (js "files") = ret (files_object f) ->
  NoDup (map fst f) ->
  sendMessageToServer_resume index_key fresh (Resolved response)
  = ret [(fresh, reply (VStr [c]) f)].
Proof.
  intros Hok Hjson Hm Hf N.
  unfold sendMessageToServer_resume.
  rewrite Hok, Hjson; simpl negb; cbv iota.
  unfold bind at 1. rewrite Hm. unfold bind at 1, ret at 1.
  unfold last_element, bind at 1, ret at 1.
  rewrite Hf. unfold bind at 1, ret at 1.
  unfold Object_keys, files_object at 1, bind at 1, ret at 1.
  replace (map fst (map (fun kv : jsstring * jsstring => (fst kv, VStr (snd kv))) f))
    with (map fst f) by (rewrite map_map; reflexivity).
  rewrite (images_of_strings f N).
  unfold bind, ret, reply.
  rewrite length_app, Nat.add_comm; simpl.
  rewrite nth_error_app2, Nat.sub_diag by lia; reflexivity.
Qed.

End OddResponses.

(** ** What the page shows *)

Lemma flat_map_map_from {A B C} (g : B -> list C) (f : A -> nat -> B)
      (h : A -> nat -> list C) (start : nat) (l : list A) :
  (forall x i, g (f x i) = h x i) ->
  flat_map g (map_from f start l) = concat (map_from h start l).
Proof.
  intros H; revert start; induction l as [|x l IH]; intros start; simpl;
    [reflexivity|].
  rewrite H, IH; reflexivity.
Qed.

Lemma concat_map_from_nil {A C} (start : nat) (l : list A) :
  concat (map_from (fun _ _ => @nil C) start l) = [].
Proof. revert start; induction l as [|x l IH]; intros start; simpl; auto. Qed.

Lemma concat_map_from_singleton {A C} (h : A -> C) (start : nat) (l : list A) :
  concat (map_from (fun x _ => [h x]) start l) = map h l.
Proof.
  revert start; induction l as [|x l IH]; intros start; simpl; [reflexivity|].
  rewrite IH; reflexivity.
Qed.

Lemma concat_map_from_flat_map {A C} (h : A -> list C) (start : nat) (l : list A) :
  concat (map_from (fun x _ => h x) start l) = flat_map h l.
Proof.
  revert start; induction l as [|x l IH]; intros start; simpl; [reflexivity|].
  rewrite IH; reflexivity.
Qed.

Lemma image_sources_MessageContent (m : Message.t) :
  image_sources (MessageContent m)
  = match Message.images m with Some images => images | None => [] end.
Proof.
  unfold MessageContent; destruct (Message.images m) as [images|];
    destruct (Message.files m) as [fs|]; cbn -[map_index];
    unfold map_index;
    repeat (erewrite flat_map_map_from by (intros; cbn; reflexivity));
    rewrite ?concat_map_from_nil, ?concat_map_from_singleton, ?map_id, ?app_nil_r;
    reflexivity.
Qed.

Lemma displayed_MessageContent (m : Message.t) :
  displayed (MessageContent m)
  = text_of (Message.text m)
    ++ match Message.files m with Some fs => map FileInfo.name fs | None => [] end.
Proof.
  unfold MessageContent; destruct (Message.images m) as [images|];
    destruct (Message.files m) as [fs|]; cbn -[map_index text_of];
    unfold map_index;
    repeat (erewrite flat_map_map_from by (intros; cbn; reflexivity));
    rewrite ?concat_map_from_nil, ?concat_map_from_singleton, ?app_nil_r;
    reflexivity.
Qed.

Lemma live_handlers_MessageContent (m : Message.t) :
  live_handlers (MessageContent m) = [].
Proof.
  unfold MessageContent; destruct (Message.images m) as [images|];
    destruct (Message.files m) as [fs|]; cbn -[map_index];
    unfold map_index;
    repeat (erewrite flat_map_map_from by (intros; cbn; reflexivity));
    rewrite ?concat_map_from_nil; reflexivity.
Qed.

Lemma shown_MessageContent (m : Message.t) :
  shown (MessageContent m)
  = map ShownText (text_of (Message.text m))
    ++ map ShownImage
         (match Message.images m with Some images => images | None => [] end)
    ++ map ShownText
         (match Message.files m with
          | Some fs => map FileInfo.name fs
          | None => []
          end).
Proof.
  unfold MessageContent, map_index.
  destruct (Message.images m) as [images|]; destruct (Message.files m) as [fs|];
    cbn -[map_from text_of];
    rewrite ?(flat_map_map_from shown _ (fun img _ => [ShownImage img]) 0)
      by (intros; reflexivity);
    rewrite ?(flat_map_map_from shown _
                (fun (file : FileInfo.t) _ => [ShownText (FileInfo.name file)]) 0)
      by (intros; reflexivity);
    rewrite ?concat_map_from_singleton, ?app_nil_r, ?map_map; reflexivity.
Qed.

(** X15.  A message bubble shows, in this order, the text of the message,
    then one image per entry of [images] with that entry as its source,
    then the name of each attached file; and it reacts to no event. *)
Theorem MessageContent_shows_text_images_and_file_names (msg : MessageObj) :
  shown (MessageContent (snd msg))
  = map ShownText (text_of (Message.text (snd msg)))
    ++ map ShownImage (images_of msg)
    ++ map ShownText
         (match Message.files (snd msg) with
          | Some fs => map FileInfo.name fs
          | None => []
          end)
  /\ live_handlers (MessageContent (snd msg)) = [].
Proof.
  split; [apply shown_MessageContent | apply live_handlers_MessageContent].
Qed.

Lemma forallb_map_from {A B} (g : B -> bool) (f : A -> nat -> B) (h : A -> bool)
      (start : nat) (l : list A) :
  (forall x i, g (f x i) = h x) ->
  forallb g (map_from f start l) = forallb h l.
Proof.
  intros H; revert start; induction l as [|x l IH]; intros start; simpl;
    [reflexivity|].
  rewrite H, IH; reflexivity.
Qed.

Lemma forallb_true {A} (l : list A) : forallb (fun _ => true) l = true.
Proof. induction l; simpl; auto. Qed.


Lemma image_sources_render (s : State) :
  image_sources (render s) = flat_map images_of (messages s).
Proof.
  unfold render, map_index.
  destruct (0 <? length (files s));
    cbn -[map_from MessageContent attached_file_row];
    rewrite (flat_map_map_from image_sources _ (fun x _ => images_of x)
               0 (messages s))
      by (intros x i; cbn -[MessageContent];
          rewrite image_sources_MessageContent; apply app_nil_r);
    rewrite ?(flat_map_map_from image_sources attached_file_row (fun _ _ => [])
                0 (files s)) by (intros; reflexivity);
    rewrite ?concat_map_from_nil, ?app_nil_r;
    apply concat_map_from_flat_map.
Qed.

Lemma displayed_render (s : State) :
  displayed (render s)
  = flat_map text_and_names_of (messages s)
    ++ if 0 <? length (files s)
       then js "Attached files:" :: map FileInfo.name (files s)
       else [].
Proof.
  unfold render, map_index.
  destruct (0 <? length (files s));
    cbn -[map_from MessageContent attached_file_row];
    rewrite (flat_map_map_from displayed _ (fun x _ => text_and_names_of x)
               0 (messages s))
      by (intros x i; cbn -[MessageContent];
          rewrite displayed_MessageContent; apply app_nil_r);
    rewrite ?(flat_map_map_from displayed attached_file_row
                (fun x _ => [FileInfo.name x]) 0 (files s))
      by (intros; reflexivity);
    rewrite ?concat_map_from_singleton, ?app_nil_r;
    rewrite concat_map_from_flat_map; reflexivity.
Qed.

Lemma renderable_MessageContent (m : Message.t) :
  renderable (MessageContent m) = valid_child (Message.text m).
Proof.
  unfold MessageContent, map_index;
    destruct (Message.images m) as [images|];
    destruct (Message.files m) as [fs|]; cbn -[map_from valid_child];
    rewrite ?(forallb_map_from renderable _ (fun _ => true) 0)
      by (intros; reflexivity);
    rewrite ?forallb_true, ?andb_true_r; reflexivity.
Qed.

Lemma renderable_render (s : State) :
  renderable (render s)
  = forallb (fun msg => valid_child (Message.text (snd msg))) (messages s).
Proof.
  unfold render, map_index.
  destruct (0 <? length (files s));
    cbn -[map_from MessageContent attached_file_row valid_child];
    rewrite (forallb_map_from renderable _
               (fun msg : MessageObj => valid_child (Message.text (snd msg)))
               0 (messages s))
      by (intros x i; cbn -[MessageContent valid_child];
          rewrite renderable_MessageContent; apply andb_true_r);
    rewrite ?(forallb_map_from renderable attached_file_row (fun _ => true)
                0 (files s)) by (intros; reflexivity);
    rewrite ?forallb_true, ?andb_true_r; reflexivity.
Qed.


(** X16.  The page shows the list as it is: the images are those of the
    messages, in order; the text is, message by message, the text and the
    names of its files, followed by the heading and the names of the
    attached files when there are some. *)
Theorem page_shows_every_message_and_attachment (s : State) :
  image_sources (render s) = flat_map images_of (messages s)
  /\ displayed (render s)
     = flat_map text_and_names_of (messages s)
       ++ if 0 <? length (files s)
          then js "Attached files:" :: map FileInfo.name (files s)
          else [].
Proof. split; [apply image_sources_render | apply displayed_render]. Qed.

Lemma nth_error_map_from {A B} (f : A -> nat -> B) (start : nat) (l : list A)
      (i : nat) :
  nth_error (map_from f start l) i
  = option_map (fun x => f x (start + i)) (nth_error l i).
Proof.
  revert start i; induction l as [|x l IH]; intros start [|i]; simpl;
    try reflexivity.
  - rewrite Nat.add_0_r; reflexivity.
  - rewrite IH; replace (S start + i) with (start + S i) by lia; reflexivity.
Qed.

(** X17.  The row of the i-th attached file shows the name of that file,
    and its button, clicked while the composer holds the files that were
    rendered, leaves the attachment list without that file and the rest as
    it is. *)
Theorem remove_button_removes_the_file_of_its_row
        (s : State) (i : nat) (file : FileInfo.t) :
  nth_error (files s) i = Some file ->
  nth_error (map_index attached_file_row (files s)) i
  = Some (attached_file_row file i)
  /\ displayed (attached_file_row file i) = [FileInfo.name file]
  /\ exists h,
       live_handlers (attached_file_row file i) = [h]
       /\ forall (d : DomEvent) (w : World),
            files (ui w) = files s ->
            files (rendered w) = files s ->
            h d w = with_ui (setFiles (fun _ => remove_nth i (files s))) w
            /\ files (ui (h d w)) = remove_nth i (files s)
            /\ files (rendered (h d w)) = remove_nth i (files s)
            /\ messages (ui (h d w)) = messages (ui w)
            /\ input (ui (h d w)) = input (ui w).
Proof.
  intros Hi.
  split; [unfold map_index; rewrite nth_error_map_from, Hi; reflexivity|].
  split; [reflexivity|].
  eexists; split; [reflexivity|].
  intros d w Hu Hr.
  assert (Hlt : i < length (files s)) by (apply nth_error_Some; congruence).
  assert (E : with_ui (removeFile (Z.of_nat i)) w
              = with_ui (setFiles (fun _ => remove_nth i (files s))) w).
  { unfold with_ui; rewrite !removeFile_at by congruence.
    unfold setFiles, remove_nth; rewrite Hu, Hr; reflexivity. }
  cbv beta; rewrite E; repeat split; cbn [with_ui ui rendered setFiles files].
Qed.


Section Page.

Variable index_key : JSValue -> Result jsstring.


End Page.

(** ** Replies on the page *)

Lemma forallb_filter {A} (p q : A -> bool) (l : list A) :
  forallb p l = true -> forallb p (filter q l) = true.
Proof.
  induction l as [|x l IH]; simpl; [reflexivity|].
  intros H; apply andb_true_iff in H; destruct H as [Hx Hl].
  destruct (q x); simpl; [rewrite Hx|]; auto.
Qed.

Section Replies.

Variable index_key : JSValue -> Result jsstring.



Lemma step_keeps_valid_children (w w' : World) (e : Event) :
  shows_well index_key e ->
  valid_texts (messages (ui w)) = true /\ valid_texts (messages (rendered w)) = true ->
  step index_key w e = Some w' ->
  valid_texts (messages (ui w')) = true
  /\ valid_texts (messages (rendered w')) = true.
Proof.
  intros Hwell [Hvalid Hpage] Hstep.
  destruct (step_cases index_key w w' e Hstep)
    as [(_ & _ & Hm & _ & Hr & _)
       | [(_ & ->) | [(k & settled & request & -> & _ & ->) | (_ & ->)]]].
  - rewrite Hm, Hr; split; assumption.
  - destruct (handleSend_in_cases (rendered w) w) as [-> | ->];
      [split; assumption|].
    cbn [messages ui rendered]. unfold valid_texts in *.
    rewrite forallb_app.
    assert (H : forallb (fun msg : MessageObj => valid_child (Message.text (snd msg)))
                  (messages (rendered w))
                && forallb (fun msg : MessageObj => valid_child (Message.text (snd msg)))
                     [(next_ref w, user_message (rendered w)); LOADING_MESSAGE]
                = true)
      by (apply andb_true_iff; split; [exact Hpage | reflexivity]).
    split; exact H.
  - destruct (settle_result index_key w k settled)
      as (r & m & c & -> & _ & _ & [(E & _) | (error & _ & -> & _)]);
      cbn [messages ui rendered]; (split; [|exact Hpage]);
      unfold valid_texts in *; rewrite forallb_app;
      (apply andb_true_iff; split; [apply forallb_filter; exact Hvalid|]);
      cbn [forallb snd].
    + rewrite (Hwell (next_ref w) r m E); reflexivity.
    + reflexivity.
  - cbn [messages ui rendered]; split; exact Hvalid.
Qed.

(** X21.  Only a reply can break the rendering: when every fetch settles on
    something whose text is a valid child, the page renders in every world
    the events lead to. *)
Theorem page_renders_unless_a_reply_is_odd (es : list Event) (w : World) :
  Forall (shows_well index_key) es ->
  run index_key init es = Some w ->
  renderable (render (ui w)) = true.
Proof.
  intros Hwell Hrun. rewrite renderable_render.
  assert (H0 : valid_texts (messages (ui init)) = true
               /\ valid_texts (messages (rendered init)) = true)
    by (split; reflexivity).
  revert Hwell Hrun H0; generalize init as w0.
  induction es as [|e es IH]; simpl; intros w0 Hwell Hrun H0.
  - injection Hrun as <-; exact (proj1 H0).
  - inversion Hwell as [|? ? He Hes]; subst.
    destruct (step index_key w0 e) as [w1|] eqn:E; [|discriminate].
    exact (IH w1 Hes Hrun (step_keeps_valid_children w0 w1 e He H0 E)).
Qed.

End Replies.

(** ** A [files] array *)

Lemma js_inj (a b : string) : js a = js b -> a = b.
Proof.
  unfold js; intros H.
  apply (f_equal (map ascii_of_N)) in H.
  rewrite !map_map in H.
  rewrite !(map_ext _ (fun x => x) ascii_N_embedding), !map_id in H.
  rewrite <- (string_of_list_ascii_of_string a),
          <- (string_of_list_ascii_of_string b), H.
  reflexivity.
Qed.

Lemma decimal_inj (i j : nat) : decimal i = decimal j -> i = j.
Proof.
  unfold decimal; intros H; apply js_inj in H.
  apply (f_equal NilEmpty.uint_of_string) in H.
  rewrite !NilEmpty.usu in H.
  injection H as H; apply Unsigned.to_uint_inj; exact H.
Qed.

Lemma decimal_is_not_length (i : nat) :
  jsstring_eqb (decimal i) (js "length") = false.
Proof.
  apply jsstring_eqb_neq; unfold decimal; intros H; apply js_inj in H.
  apply (f_equal NilEmpty.uint_of_string) in H.
  rewrite NilEmpty.usu in H; discriminate H.
Qed.

Lemma find_decimal (i start n : nat) :
  start <= i < start + n ->
  find (fun j => jsstring_eqb (decimal j) (decimal i)) (seq start n) = Some i.
Proof.
  revert start; induction n as [|n IH]; intros start H; simpl; [lia|].
  destruct (Nat.eq_dec start i) as [->|Hne].
  - rewrite jsstring_eqb_refl; reflexivity.
  - rewrite jsstring_eqb_neq
      by (intros E; apply decimal_inj in E; contradiction).
    apply IH; lia.
Qed.

(** [a[i]] read through the key [Object.keys] gives for the index [i]. *)
Lemma Get_index (elems : list JSValue) (i : nat) (v : JSValue) :
  nth_error elems i = Some v ->
  Get (VArr elems) (decimal i) = ret v.
Proof.
  intros H. unfold Get, own_property.
  rewrite decimal_is_not_length, (find_decimal i 0 (length elems)), H;
    [reflexivity|].
  split; [lia | apply nth_error_Some; congruence].
Qed.

Lemma images_of_array (strs : list jsstring) (indices : list nat) :
  (forall i, In i indices -> i < length strs) ->
  sequence
    (map (fun x =>
            v <- Get (VArr (map VStr strs)) x ;;
            string_plus (js "data:image/png;base64,") v)
         (map decimal indices))
  = ret (map (fun i => data_uri (nth i strs [])) indices).
Proof.
  induction indices as [|i indices IH]; intros H; [reflexivity|].
  cbn [map]; rewrite sequence_cons, IH by (intros j Hj; apply H; right; exact Hj).
  rewrite (Get_index (map VStr strs) i (VStr (nth i strs []))).
  - reflexivity.
  - rewrite nth_error_map, (nth_error_nth' strs [] (H i (or_introl eq_refl)));
      reflexivity.
Qed.

Lemma map_nth_seq {A} (l : list A) (d : A) (g : A -> A) :
  map (fun i => g (nth i l d)) (seq 0 (length l)) = map g l.
Proof.
  induction l as [|x l IH]; simpl; [reflexivity|].
  rewrite <- seq_shift, map_map; simpl; rewrite IH; reflexivity.
Qed.

(** X22.  [files] may be an array of strings as well as a mapping: the keys
    of an array are its indices, and the reply has one image per element,
    in order. *)
Theorem array_files_give_one_image_per_element
        (index_key : JSValue -> Result jsstring)
        (fresh : ref) (response : Response) (responseData : JSValue)
        (m : list JSValue) (strs : list jsstring) :
  ok response = true ->
  json response = inr responseData ->
  Get responseData (js "messages") = ret (VArr m) ->
  Get responseData (js "files") = ret (VArr (map VStr strs)) ->
  sendMessageToServer_resume index_key fresh (Resolved response)
  = ret [(fresh,
          {| Message.text := last m VUndefined;
             Message.sender := agent;
             Message.files := Some [];
             Message.images := Some (map data_uri strs) |})].
Proof.
  intros Hok Hjson Hm Hf.
  unfold sendMessageToServer_resume.
  rewrite Hok, Hjson; simpl negb; cbv iota.
  unfold bind at 1. rewrite Hm. unfold bind at 1, ret at 1.
  unfold last_element, bind at 1, ret at 1.
  rewrite Hf. unfold bind at 1, ret at 1.
  unfold Object_keys, bind at 1, ret at 1.
  rewrite images_of_array
    by (intros i Hi; apply in_seq in Hi; rewrite length_map in Hi; lia).
  unfold bind, ret.
  rewrite nth_pred_length_last, length_map, (map_nth_seq strs [] data_uri).
  reflexivity.
Qed.

(** ** The drag highlight *)

(** X23.  The drag highlight follows the drag events alone: it is on exactly
    when the last of them was a drag-over, and off after a drag-leave or a
    drop; typing, attaching, removing, sending and the settling of a fetch
    leave it as it is. *)
Theorem highlight_follows_the_drag_events
        (index_key : JSValue -> Result jsstring)
        (es : list Event) (w w' : World) :
  run index_key w es = Some w' ->
  isDragging (ui w') = highlight_after (isDragging (ui w)) es.
Proof.
  revert w; induction es as [|e es IH]; simpl; intros w Hrun.
  - injection Hrun as <-; reflexivity.
  - destruct (step index_key w e) as [w1|] eqn:E; [|discriminate].
    rewrite (IH w1 Hrun); unfold highlight_after; f_equal.
    destruct e as [value|k| |fl|fl| | |index|k settled| ].
    + injection E as <-; reflexivity.
    + simpl in E. destruct (jsstring_eqb k (js "Enter")); injection E as <-;
        [unfold handleSend;
         destruct (handleSend_in_cases (rendered w) w) as [-> | ->]|];
        reflexivity.
    + simpl in E. destruct (isLoading (rendered w)); [discriminate|].
      injection E as <-. unfold handleSend.
      destruct (handleSend_in_cases (rendered w) w) as [-> | ->]; reflexivity.
    + injection E as <-; reflexivity.
    + injection E as <-; reflexivity.
    + injection E as <-; reflexivity.
    + injection E as <-; reflexivity.
    + simpl in E. destruct (index <? length (files (rendered w))); [|discriminate].
      injection E as <-; reflexivity.
    + destruct (nth_error (inflight w) k) as [request|] eqn:Hk;
        [rewrite (step_Settle index_key w k settled request Hk) in E
        | simpl in E; rewrite Hk in E; discriminate].
      assert (E' : w1 = fst (handleSend_resume index_key settled (settle_pending k w)))
        by congruence.
      subst w1.
      destruct (settle_result index_key w k settled) as (r & m & c & -> & _).
      reflexivity.
    + injection E as <-; reflexivity.
Qed.

(** ** Instances of the further properties *)

Lemma X1_witness : placeholders (messages (ui w_sent)) <= 1.
Proof.
  apply (at_most_one_placeholder_by_button plain_index_key
           [Change (js "hi"); ClickSend] w_sent); reflexivity.
Defined.

Lemma X2_witness :
  (isLoading (ui w_one_settled) = true
   <-> 1 <= placeholders (messages (ui w_one_settled)))
  /\ (isLoading (ui w_one_settled) = true -> inflight w_one_settled <> []).
Proof.
  apply (busy_exactly_while_placeholder_shown plain_index_key
           (enter_twice ++ [Settle 0 (Rejected TypeError)]) w_one_settled).
  reflexivity.
Defined.

Lemma X3_witness : answered_or_pending w_answered_twice.
Proof.
  apply (user_messages_answered_or_pending plain_index_key answered_twice
           w_answered_twice); [|reflexivity].
  cbv; repeat split; intros H; first [reflexivity | discriminate H].
Defined.

Lemma X4_witness :
  length (inflight w_two_pending) = 2
  /\ isLoading (ui w_one_settled) = false
  /\ placeholders (messages (ui w_one_settled)) = 0
  /\ S (length (inflight w_one_settled)) = length (inflight w_two_pending).
Proof.
  split; [reflexivity|].
  apply (settling_clears_busy_flag_and_placeholders plain_index_key
           enter_twice w_two_pending w_one_settled 0 (Rejected TypeError));
    reflexivity.
Defined.

Lemma X5_witness :
  exists added, conversation w_answered_twice = conversation w_sent ++ added.
Proof.
  apply (conversation_only_grows plain_index_key
           [Change (js "hi"); ClickSend]
           [Settle 0 (ok_response body_a_b); Rerender; Change (js "b");
            KeyPress (js "Enter"); Settle 0 (Rejected TypeError)]
           w_sent w_answered_twice);
    [reflexivity | | reflexivity].
  cbv; repeat split; intros H; first [reflexivity | discriminate H].
Defined.

Lemma X6_witness :
  inflight w_one_settled = remove_nth 0 (inflight w_two_pending)
  /\ (inflight w_sent = inflight (world_after [Change (js "hi")])
      \/ exists request,
           inflight w_sent = inflight (world_after [Change (js "hi")]) ++ [request]).
Proof.
  split.
  - apply (requests_come_from_sends_only plain_index_key
             w_two_pending w_one_settled (Settle 0 (Rejected TypeError))).
    reflexivity.
  - apply (requests_come_from_sends_only plain_index_key
             (world_after [Change (js "hi")]) w_sent ClickSend).
    reflexivity.
Defined.


Lemma X9_witness :
  removeFile 2 (handleFiles [a_file; b_file] two_files)
  = handleFiles [b_file] two_files.
Proof.
  apply (removing_an_attached_file_undoes_it two_files [a_file; b_file] 0).
  simpl; lia.
Defined.

Lemma X10_witness : removeFile (-1) two_files = two_files.
Proof.
  apply (removeFile_negative_index_is_noop two_files (-1)); lia.
Defined.

Lemma X11_witness :
  exists w',
    run plain_index_key init [Drop [a_file; b_file]; KeyPress (js "Enter")] = Some w'
    /\ inflight w'
       = [[Field (js "input") (VStr []);
           FileField (js "files")
             {| blob_bytes := []; blob_type := js "text/csv" |} (js "plot.csv");
           FileField (js "files")
             {| blob_bytes := []; blob_type := js "text/plain" |} (js "notes.txt")]]
    /\ isDragging (ui w') = false
    /\ input (ui w') = []
    /\ files (ui w') = [].
Proof.
  apply (dropped_files_are_sent_in_order plain_index_key init [a_file; b_file]).
  - split; reflexivity.
  - discriminate.
Defined.

Lemma X12_witness :
  sendMessageToServer_resume plain_index_key 2
    (Resolved {| status := 500; statusText := js "Internal Server Error";
                 json := inr body_a_b |})
  = inl (Error (js "Server error: Internal Server Error")).
Proof.
  apply (non_OK_status_throws_before_the_body_is_read plain_index_key 2 500
           (js "Internal Server Error") (inr body_a_b)).
  right; reflexivity.
Defined.

Lemma X13_witness :
  sendMessageToServer_resume plain_index_key 2
    (ok_response (VObj [(js "files", VObj [])]))
  = inl TypeError.
Proof.
  apply (missing_messages_throws plain_index_key 2
           {| status := 200; statusText := js "OK";
              json := inr (VObj [(js "files", VObj [])]) |}
           (VObj [(js "files", VObj [])]));
    [reflexivity | reflexivity | left; reflexivity].
Defined.

Lemma X14_witness :
  sendMessageToServer_resume plain_index_key 2 (ok_response body_string_messages)
  = ret [(2, reply (VStr (js "e")) [])].
Proof.
  apply (string_messages_yield_last_code_unit plain_index_key 2
           {| status := 200; statusText := js "OK";
              json := inr body_string_messages |}
           body_string_messages (js "don") 101%N []);
    try reflexivity.
  constructor.
Defined.

Lemma X17_witness :
  nth_error (map_index attached_file_row (files two_files)) 1
  = Some (attached_file_row (FileInfo_of b_file) 1)
  /\ displayed (attached_file_row (FileInfo_of b_file) 1) = [js "notes.txt"]
  /\ exists h,
       live_handlers (attached_file_row (FileInfo_of b_file) 1) = [h]
       /\ forall (d : DomEvent) (w : World),
            files (ui w) = files two_files ->
            files (rendered w) = files two_files ->
            h d w = with_ui (setFiles (fun _ => remove_nth 1 (files two_files))) w
            /\ files (ui (h d w)) = remove_nth 1 (files two_files)
            /\ files (rendered (h d w)) = remove_nth 1 (files two_files)
            /\ messages (ui (h d w)) = messages (ui w)
            /\ input (ui (h d w)) = input (ui w).
Proof.
  apply (remove_button_removes_the_file_of_its_row two_files 1 (FileInfo_of b_file)).
  reflexivity.
Defined.



Lemma X21_witness :
  renderable
    (render (ui (world_after [Change (js "hi"); ClickSend;
                              Settle 0 (ok_response body_a_b)])))
  = true.
Proof.
  apply (page_renders_unless_a_reply_is_odd plain_index_key
           [Change (js "hi"); ClickSend; Settle 0 (ok_response body_a_b)]);
    [|reflexivity].
  repeat constructor.
  intros fresh r m H; vm_compute in H.
  injection H as _ <-; reflexivity.
Defined.

Lemma X22_witness :
  sendMessageToServer_resume plain_index_key 2 (ok_response body_files_array)
  = ret [(2,
          {| Message.text := VStr (js "a");
             Message.sender := agent;
             Message.files := Some [];
             Message.images := Some [js "data:image/png;base64,iVBORw0KGgo=";
                                     js "data:image/png;base64,R0lGODlh"] |})].
Proof.
  apply (array_files_give_one_image_per_element plain_index_key 2
           {| status := 200; statusText := js "OK"; json := inr body_files_array |}
           body_files_array [VStr (js "a")] [js "iVBORw0KGgo="; js "R0lGODlh"]);
    reflexivity.
Defined.

Lemma X23_witness :
  isDragging
    (ui (world_after [DragOver; Change (js "hi"); ClickSend;
                      Settle 0 (Rejected TypeError)]))
  = true
  /\ isDragging
       (ui (world_after [DragOver; Change (js "hi"); Drop [a_file]; ClickSend]))
     = false.
Proof.
  split.
  - apply (highlight_follows_the_drag_events plain_index_key
             [DragOver; Change (js "hi"); ClickSend; Settle 0 (Rejected TypeError)]
             init); reflexivity.
  - apply (highlight_follows_the_drag_events plain_index_key
             [DragOver; Change (js "hi"); Drop [a_file]; ClickSend]
             init); reflexivity.
Defined.
